(** * service-tui: the viewport / selection / filter engine of [service-tui.py]

    A shallow embedding of the functions of [src/service-tui.py] and the
    properties of its specification.

    Conventions of the embedding.
    - A Python [str] is a list of code points; the model covers the code
      points U+0000..U+00FF, carried by [ascii].
    - A Python [int] is a [Z]; [len(l)] is [Z.of_nat (length l)].
    - A dict with the keys "unit", "load", "active", "sub", "description"
      is the record [service].
    - The outcome of every external call (subprocess, curses prompt, file
      write) is an input of the model, attached to the key that causes it.
    - An exception that the source does not catch ends [main_loop]; the
      model returns it as [Raise].  Calls into curses are taken not to
      raise.
    - The pop-up windows (help, details, confirmation, text entry) read
      their own keys and leave the variables of [main_loop] alone; of
      them the model keeps the answer and the commands they run. *)

From Stdlib Require Import ZArith Ascii String List Bool Lia.
From stdpp Require Import base list.

Open Scope Z_scope.

Import ListNotations.

(** ** Python strings *)

Module PyStr.

Definition pystr := list ascii.

(** A string literal of the source. *)
Definition str (s : string) : pystr := list_ascii_of_string s.
Global Arguments str : simpl never.

Definition code (c : ascii) : N := N_of_ascii c.

(** [str.isspace] for one code point below 256. *)
Definition isspace (c : ascii) : bool :=
  existsb (N.eqb (code c)) [9; 10; 11; 12; 13; 28; 29; 30; 31; 32; 133; 160]%N.

(** The line boundaries of [str.splitlines] below 256. *)
Definition is_linebreak (c : ascii) : bool :=
  existsb (N.eqb (code c)) [10; 11; 12; 13; 28; 29; 30; 133]%N.

(** [str.lower] on one code point below 256: A-Z and the Latin-1 capitals
    (all of 192..222 but the multiplication sign 215) move up by 32. *)
Definition lower_char (c : ascii) : ascii :=
  let n := code c in
  if ((65 <=? n) && (n <=? 90) || (192 <=? n) && (n <=? 214)
      || (216 <=? n) && (n <=? 222))%N
  then ascii_of_N (n + 32) else c.

Definition lower (s : pystr) : pystr := map lower_char s.

(** [s.startswith(p)] *)
Fixpoint startswith (p s : pystr) : bool :=
  match p, s with
  | [], _ => true
  | _ :: _, [] => false
  | a :: p', b :: s' => Ascii.eqb a b && startswith p' s'
  end.

(** [needle in hay] *)
Fixpoint contains (needle hay : pystr) : bool :=
  startswith needle hay
  || match hay with
     | [] => false
     | _ :: t => contains needle t
     end.

(** What [in] decides: [needle] occurs in [hay] as a contiguous block. *)
Definition substring_of (needle hay : pystr) : Prop :=
  exists pre post, hay = pre ++ needle ++ post.

(** [s.lstrip()], [s.rstrip()], [s.strip()] *)
Fixpoint lstrip (s : pystr) : pystr :=
  match s with
  | [] => []
  | c :: t => if isspace c then lstrip t else s
  end.

Definition rstrip (s : pystr) : pystr := rev (lstrip (rev s)).

Definition strip (s : pystr) : pystr := rstrip (lstrip s).

(** The longest prefix without a whitespace character, and the rest. *)
Fixpoint word_break (s : pystr) : pystr * pystr :=
  match s with
  | [] => ([], [])
  | c :: t =>
      if isspace c then ([], s)
      else let '(w, r) := word_break t in (c :: w, r)
  end.

(** [s.split(None, maxsplit)] for [maxsplit >= 0]: at most [maxsplit]
    words are cut off; what is left after them, without its leading
    whitespace, is the last part when it is not empty. *)
Fixpoint split (maxsplit : nat) (s : pystr) : list pystr :=
  match lstrip s with
  | [] => []
  | c :: t =>
      match maxsplit with
      | O => [c :: t]
      | S m => let '(w, r) := word_break (c :: t) in w :: split m r
      end
  end.

(** [s.split()]: no limit on the number of cuts.  A string of [n]
    characters has fewer than [n + 1] words. *)
Definition split_all (s : pystr) : list pystr := split (length s) s.

(** [s.splitlines()].  [cur] holds the current line reversed; [after_cr]
    says that the previous character was a carriage return, whose line
    feed belongs to the same boundary. *)
Fixpoint splitlines_from (after_cr : bool) (cur : pystr) (s : pystr)
  : list pystr :=
  match s with
  | [] => match cur with [] => [] | _ => [rev cur] end
  | c :: t =>
      if after_cr && N.eqb (code c) 10 then splitlines_from false cur t
      else if is_linebreak c
      then rev cur :: splitlines_from (N.eqb (code c) 13) [] t
      else splitlines_from false (c :: cur) t
  end.

Definition splitlines (s : pystr) : list pystr := splitlines_from false [] s.

(** Truth value of an [Optional[str]]: [None] and the empty string are
    false. *)
Definition truthy (q : option pystr) : bool :=
  match q with
  | Some (_ :: _) => true
  | _ => false
  end.

End PyStr.

Import PyStr.

(** ** Data model *)

(** One unit of the service manager, as [fetch_services] builds it. *)
Record service := Service {
  svc_unit : pystr;
  svc_load : pystr;
  svc_active : pystr;
  svc_sub : pystr;
  svc_description : pystr
}.

(** Exceptions that reach [main_loop]. *)
Inductive exn :=
| IndexError
| ValueError
| OSError (msg : pystr).

Inductive result (A : Type) :=
| Ok (a : A)
| Raise (e : exn).
Arguments Ok {A} a.
Arguments Raise {A} e.

(** What [subprocess.run(cmd, capture_output=True, text=True)] does: the
    command runs to its end, or it cannot be started and [run] raises. *)
Inductive proc :=
| Completed (returncode : Z) (stdout stderr : pystr)
| Launch_failed (msg : pystr).

(** The content of [MARKS_FILE].  [Json_list] is what the program writes;
    a file holding JSON of another shape is outside the model. *)
Inductive file_content :=
| Missing
| Not_json
| Json_list (l : list pystr).

(** What [open(MARKS_FILE, "w")] followed by [json.dump] does: the list is
    written, or an exception leaves the file as [remains]. *)
Inductive write_outcome :=
| Written
| Write_failed (remains : file_content).

(** The variables of [main_loop], with the mark file they are saved to. *)
Record state := State {
  marks : list pystr;
  all_services : list service;
  filter_q : option pystr;
  services : list service;
  cursor : Z;
  offset : Z;
  status_msg : pystr;
  marks_file : file_content
}.

(** What the loop does to the outside: a frame drawn by [draw_main] on a
    terminal of [h] rows, a command handed to [subprocess.run]. *)
Inductive effect :=
| Draw (h : Z) (st : state)
| Exec (cmd : list pystr).

(** One key read by [stdscr.getch()], with the outcome of every external
    call its branch makes.  [KEY_DOWN] stands for the arrow and [j],
    [KEY_UP] for the arrow and [k]; [Key_other] for every key without a
    branch of its own, [KEY_RESIZE] among them: curses reports a new
    terminal size as a key, so the height is the same all through one turn
    of the loop. *)
Inductive key :=
| KEY_DOWN
| KEY_UP
| KEY_NPAGE
| KEY_PPAGE
| Key_q (w : write_outcome)
| Key_r (fetch : proc)
| Key_h
| Key_m (w : write_outcome)
| Key_enter
| Key_s (confirm : bool) (action : proc) (fetch : proc)
| Key_e (is_enabled : proc) (confirm : bool) (action : proc) (fetch : proc)
| Key_slash (val : option pystr)
| Key_n
| Key_N
| Key_other.

(** How one turn of the [while True] loop ends. *)
Inductive control :=
| Continue (st : state)
| Break (st : state).

(** ** Effects: a log of effects and a result or an exception *)

Definition M (A : Type) : Type := list effect * result A.

Definition ret {A} (a : A) : M A := ([], Ok a).

Definition raise {A} (e : exn) : M A := ([], Raise e).

Definition emit (e : effect) : M unit := ([e], Ok tt).

Definition lift {A} (r : result A) : M A := ([], r).

Definition bind {A B} (m : M A) (k : A -> M B) : M B :=
  match m with
  | (log, Ok a) => let '(log', r) := k a in (log ++ log', r)
  | (log, Raise e) => (log, Raise e)
  end.

Notation "'do' x <- m ;; k" := (bind m (fun x => k))
  (at level 10, x name, m at level 99, k at level 200).
Notation "'run' m ;; k" := (bind m (fun _ => k))
  (at level 10, m at level 99, k at level 200).

Definition log_of {A} (m : M A) : list effect := fst m.
Definition result_of {A} (m : M A) : result A := snd m.

(** ** Python lists *)

Definition len {A} (l : list A) : Z := Z.of_nat (length l).

(** [l[i]]: a negative index counts from the end; out of range raises. *)
Definition py_index {A} (l : list A) (i : Z) : result A :=
  let j := if i <? 0 then i + len l else i in
  if (0 <=? j) && (j <? len l)
  then match nth_error l (Z.to_nat j) with
       | Some a => Ok a
       | None => Raise IndexError
       end
  else Raise IndexError.

(** [range(start, stop)] *)
Definition range_up (start stop : Z) : list Z :=
  map (fun k => start + Z.of_nat k) (seq 0 (Z.to_nat (stop - start))).

(** [range(start, -1, -1)] *)
Definition range_down (start : Z) : list Z :=
  map (fun k => start - Z.of_nat k) (seq 0 (Z.to_nat (start + 1))).

Definition pystr_eqb (a b : pystr) : bool :=
  if List.list_eq_dec Ascii.ascii_dec a b then true else false.

(** [x in l] on a list of strings *)
Definition mem (x : pystr) (l : list pystr) : bool := existsb (pystr_eqb x) l.

(** [l.remove(x)]: the first occurrence goes.  It is called only under
    [x in l], so its [ValueError] cannot happen. *)
Fixpoint remove_first (x : pystr) (l : list pystr) : list pystr :=
  match l with
  | [] => []
  | y :: t => if pystr_eqb x y then t else y :: remove_first x t
  end.

(** ** Mark Store *)

Definition load_marks (f : file_content) : list pystr :=
  match f with
  | Json_list l => l
  | _ => []
  end.

Definition save_marks (marks : list pystr) (w : write_outcome) : file_content :=
  match w with
  | Written => Json_list marks
  | Write_failed remains => remains
  end.

(** [ensure_config]: a missing file is created holding the empty list;
    here a failed write is not caught. *)
Definition ensure_config (w : write_outcome) (f : file_content)
  : result file_content :=
  match f with
  | Missing =>
      match w with
      | Written => Ok (Json_list [])
      | Write_failed _ => Raise (OSError (str "ensure_config"))
      end
  | _ => Ok f
  end.

(** ** Service Directory Gateway *)

Definition list_units_cmd : list pystr :=
  map str ["systemctl"; "list-units"; "--type=service"; "--all";
           "--no-legend"; "--no-pager"; "--plain"]%string.

(** [unit, load, active, sub, desc = parts] *)
Definition unpack5 (parts : list pystr) : result service :=
  match parts with
  | [unit; load; active; sub; desc] => Ok (Service unit load active sub desc)
  | _ => Raise ValueError
  end.

(** The [for line in out.splitlines()] loop of [fetch_services]. *)
Fixpoint fetch_loop (lines : list pystr) (acc : list service)
  : result (list service) :=
  match lines with
  | [] => Ok acc
  | line :: rest =>
      let parts := split 4 line in
      if len parts <? 5 then fetch_loop rest acc
      else match unpack5 parts with
           | Ok s => fetch_loop rest (acc ++ [s])
           | Raise e => Raise e
           end
  end.

Definition fetch_services (p : proc) : result (list service) :=
  match p with
  | Launch_failed msg => Raise (OSError msg)
  | Completed _ out _ => fetch_loop (splitlines out) []
  end.

Definition run_action (p : proc) : bool * pystr :=
  match p with
  | Completed returncode out err => (returncode =? 0, out ++ err)
  | Launch_failed msg => (false, msg)
  end.

Definition action_cmd (action unit : pystr) : list pystr :=
  [str "sudo"; str "systemctl"; action; unit].

(** ** Filter Engine *)

(** [ql in s['unit'].lower() or ql in s['description'].lower()] *)
Definition svc_matches (ql : pystr) (s : service) : bool :=
  contains ql (lower (svc_unit s)) || contains ql (lower (svc_description s)).

Definition apply_filter (all_services : list service) (q : option pystr)
  : list service :=
  match q with
  | Some (c :: q') =>
      let ql := lower (c :: q') in
      fold_left (fun out s => if svc_matches ql s then out ++ [s] else out)
                all_services []
  | _ => all_services
  end.

(** ** Viewport Controller *)

Definition set_cursor (c : Z) (st : state) : state :=
  State (marks st) (all_services st) (filter_q st) (services st)
        c (offset st) (status_msg st) (marks_file st).

Definition set_offset (o : Z) (st : state) : state :=
  State (marks st) (all_services st) (filter_q st) (services st)
        (cursor st) o (status_msg st) (marks_file st).

Definition set_status (msg : pystr) (st : state) : state :=
  State (marks st) (all_services st) (filter_q st) (services st)
        (cursor st) (offset st) msg (marks_file st).

Definition set_marks (m : list pystr) (st : state) : state :=
  State m (all_services st) (filter_q st) (services st)
        (cursor st) (offset st) (status_msg st) (marks_file st).

Definition set_file (f : file_content) (st : state) : state :=
  State (marks st) (all_services st) (filter_q st) (services st)
        (cursor st) (offset st) (status_msg st) f.

Definition set_filter (q : option pystr) (st : state) : state :=
  State (marks st) (all_services st) q (services st)
        (cursor st) (offset st) (status_msg st) (marks_file st).

Definition set_services (l : list service) (st : state) : state :=
  State (marks st) (all_services st) (filter_q st) l
        (cursor st) (offset st) (status_msg st) (marks_file st).

Definition set_all_services (l : list service) (st : state) : state :=
  State (marks st) l (filter_q st) (services st)
        (cursor st) (offset st) (status_msg st) (marks_file st).

(** The nested function [clamp_cursor]. *)
Definition clamp_cursor (st : state) : state :=
  let st1 := if cursor st <? 0 then set_cursor 0 st else st in
  if cursor st1 >=? len (services st1)
  then set_cursor (Z.max 0 (len (services st1) - 1)) st1
  else st1.

(** [max_lines] of [main_loop] on a terminal of [h] rows: the viewport
    height. *)
Definition max_lines (h : Z) : Z :=
  let top := 1 in
  let bottom := h - 3 in
  Z.max 1 (bottom - top + 1).

(** "compute offset so that cursor is visible" *)
Definition scroll (max_lines : Z) (st : state) : state :=
  if cursor st <? offset st then set_offset (cursor st) st
  else if cursor st >=? offset st + max_lines
  then set_offset (cursor st - max_lines + 1) st
  else st.

(** The head of the loop body, up to the call of [draw_main]. *)
Definition frame (h : Z) (st : state) : state :=
  scroll (max_lines h) (clamp_cursor st).

(** ** Match Navigator *)

(** The [for i in range(...)] loops of the keys [n] and [N]: the first
    index of [idxs] whose service matches, [None] when the loop ends
    without [break]. *)
Fixpoint first_match (ql : pystr) (services : list service) (idxs : list Z)
  : result (option Z) :=
  match idxs with
  | [] => Ok None
  | i :: rest =>
      match py_index services i with
      | Raise e => Raise e
      | Ok s => if svc_matches ql s then Ok (Some i)
                else first_match ql services rest
      end
  end.

(** The scan of the key [n]: forward from [cursor + 1] to the end. *)
Definition next_match (filter_q : pystr) (services : list service) (cursor : Z)
  : result (option Z) :=
  let start := cursor + 1 in
  first_match (lower filter_q) services (range_up start (len services)).

(** The scan of the key [N]: backward from [cursor - 1] to 0. *)
Definition previous_match (filter_q : pystr) (services : list service)
    (cursor : Z) : result (option Z) :=
  let start := cursor - 1 in
  first_match (lower filter_q) services (range_down start).

(** ** Session Controller *)

(** The block that follows a confirmation prompt, the same for the four
    actions: [name] is the systemctl verb, [done] the message of success. *)
Definition confirmed_action (ok : bool) (name done : pystr) (unit : pystr)
    (action : proc) (st : state) : M state :=
  if ok then
    run emit (Exec (action_cmd name unit)) ;;
    let '(ok2, out) := run_action action in
    ret (set_status (if ok2 then done
                     else str "error: " ++ take 60 (strip out)) st)
  else ret st.

(** [all_services = fetch_services()] followed by
    [services = apply_filter(all_services, filter_q)]. *)
Definition refetch (fetch : proc) (st : state) : M state :=
  run emit (Exec list_units_cmd) ;;
  do all <- lift (fetch_services fetch) ;;
  ret (set_services (apply_filter all (filter_q st)) (set_all_services all st)).

(** The [if / elif] chain on the key [k], on a terminal of [h] rows. *)
Definition handle (h : Z) (k : key) (st : state) : M control :=
  let max_idx := len (services st) - 1 in
  let max_lines := max_lines h in
  match k with
  | KEY_DOWN =>
      ret (Continue (set_cursor (Z.min max_idx (cursor st + 1)) st))
  | KEY_UP =>
      ret (Continue (set_cursor (Z.max 0 (cursor st - 1)) st))
  | KEY_NPAGE =>
      ret (Continue (set_cursor
             (Z.min max_idx (cursor st + Z.max 1 (max_lines - 1))) st))
  | KEY_PPAGE =>
      ret (Continue (set_cursor
             (Z.max 0 (cursor st - Z.max 1 (max_lines - 1))) st))
  | Key_q w =>
      ret (Break (set_file (save_marks (marks st) w) st))
  | Key_r fetch =>
      let st1 := set_status (str "refreshing...") st in
      run emit (Draw h st1) ;;
      do st2 <- refetch fetch st1 ;;
      ret (Continue (set_status (str "refreshed") st2))
  | Key_h =>
      ret (Continue (set_status (str "help closed") st))
  | Key_m w =>
      match services st with
      | [] => ret (Continue st)
      | _ :: _ =>
          do svc <- lift (py_index (services st) (cursor st)) ;;
          let unit := svc_unit svc in
          let st1 :=
            if mem unit (marks st)
            then set_status (str "unmarked " ++ unit)
                   (set_marks (remove_first unit (marks st)) st)
            else set_status (str "marked " ++ unit)
                   (set_marks (marks st ++ [unit]) st) in
          ret (Continue (set_file (save_marks (marks st1) w) st1))
      end
  | Key_enter =>
      match services st with
      | [] => ret (Continue st)
      | _ :: _ =>
          do svc <- lift (py_index (services st) (cursor st)) ;;
          run emit (Exec [str "journalctl"; str "-u"; svc_unit svc; str "-n";
                          str "10"; str "--no-pager"]) ;;
          ret (Continue st)
      end
  | Key_s confirm action fetch =>
      match services st with
      | [] => ret (Continue st)
      | _ :: _ =>
          do svc <- lift (py_index (services st) (cursor st)) ;;
          let unit := svc_unit svc in
          let cur_active := svc_active svc in
          do st1 <- (if pystr_eqb cur_active (str "active")
                     then confirmed_action confirm (str "stop") (str "stopped")
                            unit action st
                     else confirmed_action confirm (str "start") (str "started")
                            unit action st) ;;
          do st2 <- refetch fetch st1 ;;
          ret (Continue st2)
      end
  | Key_e is_enabled confirm action fetch =>
      match services st with
      | [] => ret (Continue st)
      | _ :: _ =>
          do svc <- lift (py_index (services st) (cursor st)) ;;
          let unit := svc_unit svc in
          run emit (Exec [str "systemctl"; str "is-enabled"; unit]) ;;
          match is_enabled with
          | Launch_failed msg => raise (OSError msg)
          | Completed returncode _ _ =>
              let enabled := returncode =? 0 in
              do st1 <- (if enabled
                         then confirmed_action confirm (str "disable")
                                (str "disabled") unit action st
                         else confirmed_action confirm (str "enable")
                                (str "enabled") unit action st) ;;
              do st2 <- refetch fetch st1 ;;
              ret (Continue st2)
          end
      end
  | Key_slash val =>
      let q := match val with
               | None => None
               | Some [] => None
               | Some v => Some v
               end in
      let st1 := set_offset 0 (set_cursor 0
                   (set_services (apply_filter (all_services st) q)
                      (set_filter q st))) in
      ret (Continue (set_status
             match q with
             | Some (c :: v) => str "filter set to '" ++ (c :: v) ++ str "'"
             | _ => str "filter cleared"
             end st1))
  | Key_n =>
      match filter_q st, services st with
      | Some (c :: q), _ :: _ =>
          do found <- lift (next_match (c :: q) (services st) (cursor st)) ;;
          ret (Continue match found with
                        | Some i => set_cursor i st
                        | None => set_status (str "no more matches") st
                        end)
      | _, _ => ret (Continue st)
      end
  | Key_N =>
      match filter_q st, services st with
      | Some (c :: q), _ :: _ =>
          do found <- lift (previous_match (c :: q) (services st) (cursor st)) ;;
          ret (Continue match found with
                        | Some i => set_cursor i st
                        | None => set_status (str "no previous match") st
                        end)
      | _, _ => ret (Continue st)
      end
  | Key_other =>
      ret (Continue (set_status [] st))
  end.

(** One turn of [while True]: clamp and scroll, draw, read a key, act. *)
Definition iteration (h : Z) (k : key) (st : state) : M control :=
  let st1 := frame h st in
  run emit (Draw h st1) ;;
  handle h k st1.

(** The loop over the keys typed, each with the terminal height of its
    frame.  When the keys are used up the loop stands before its next turn. *)
Fixpoint main_loop_from (evs : list (Z * key)) (st : state) : M control :=
  match evs with
  | [] => ret (Continue st)
  | (h, k) :: rest =>
      do c <- iteration h k st ;;
      match c with
      | Continue st' => main_loop_from rest st'
      | Break st' => ret (Break st')
      end
  end.

(** The state that [main_loop] builds before its loop. *)
Definition initial (f : file_content) (all : list service) : state :=
  State (load_marks f) all None (apply_filter all None) 0 0 (str "ready") f.

Definition main_loop (w0 : write_outcome) (file : file_content) (fetch0 : proc)
    (evs : list (Z * key)) : M control :=
  do f <- lift (ensure_config w0 file) ;;
  run emit (Exec list_units_cmd) ;;
  do all <- lift (fetch_services fetch0) ;;
  main_loop_from evs (initial f all).

(** The frames drawn, in order, with the terminal height of each. *)
Definition frames (log : list effect) : list (Z * state) :=
  flat_map (fun e => match e with Draw h st => [(h, st)] | Exec _ => [] end) log.

(** ** Properties stated over the model *)

(** The viewport invariant of a frame drawn with viewport height [vh]. *)
Definition viewport_ok (vh : Z) (st : state) : Prop :=
  (services st <> [] ->
     0 <= offset st /\ offset st <= cursor st /\ cursor st < offset st + vh
     /\ cursor st < len (services st))
  /\ (services st = [] -> cursor st = 0).

(** The indices of [services] whose service matches [ql], ascending. *)
Definition matches_at (ql : pystr) (services : list service) (i : Z) : bool :=
  match py_index services i with
  | Ok s => svc_matches ql s
  | Raise _ => false
  end.

Definition matching_indices (ql : pystr) (services : list service) : list Z :=
  List.filter (matches_at ql services) (range_up 0 (len services)).

(** The indices that repeated presses of [n] move the cursor to, starting
    with the cursor on [cursor], until a press finds no match. *)
Fixpoint next_visits (presses : nat) (filter_q : pystr)
    (services : list service) (cursor : Z) : list Z :=
  match presses with
  | O => []
  | S p =>
      match next_match filter_q services cursor with
      | Ok (Some i) => i :: next_visits p filter_q services i
      | _ => []
      end
  end.

(** What the key [m] does to the mark list for the selected [unit]. *)
Definition toggle_mark (unit : pystr) (marks : list pystr) : list pystr :=
  if mem unit marks then remove_first unit marks else marks ++ [unit].

(** A directory query that fails: it cannot be started, or it exits with
    a status other than 0. *)
Definition gateway_failed (p : proc) : Prop :=
  match p with
  | Launch_failed _ => True
  | Completed returncode _ _ => returncode <> 0
  end.

(** The matching indices from [a] on, ascending. *)
Definition after (ql : pystr) (svcs : list service) (a : Z) : list Z :=
  List.filter (matches_at ql svcs) (range_up a (len svcs)).

(** The refresh as the specification words it: after a directory query
    that failed the loop goes on, and the filtered view is the one of
    before. *)
Definition refresh_failure_keeps_view : Prop :=
  forall (h : Z) (st : state) (fetch : proc),
    gateway_failed fetch ->
    exists st',
      result_of (handle h (Key_r fetch) st) = Ok (Continue st')
      /\ services st' = services st.

(** A field: not empty and free of whitespace. *)
Definition is_word (w : pystr) : Prop :=
  w <> [] /\ forallb (fun c => negb (isspace c)) w = true.

(** The whitespace-separated fields of a line: [line.split()]. *)
Definition fields (line : pystr) : list pystr := split_all line.

(** What one line of the listing contributes to the Service List: nothing
    when it has fewer than 5 fields; otherwise one record whose first four
    components are the first four fields and whose description is the end
    of the line that holds the fifth and the following fields. *)
Definition line_yields (line : pystr) (recs : list service) : Prop :=
  let fs := fields line in
  if (length fs <? 5)%nat then recs = []
  else exists desc pre,
      recs = [Service (nth 0 fs []) (nth 1 fs []) (nth 2 fs []) (nth 3 fs [])
                desc]
      /\ fields desc = drop 4 fs
      /\ line = pre ++ desc.

(** Cursor and offset of a frame. *)
Definition view (d : Z * state) : Z * Z := (cursor (snd d), offset (snd d)).

(** ** Reasoning about [M] *)

(** A Hoare-style reading of [M]: [D] holds of every frame drawn and
    [Q] of the value returned, when one is returned. *)
Definition sat {A} (D : Z * state -> Prop) (Q : A -> Prop) (m : M A) : Prop :=
  Forall D (frames (log_of m)) /\ forall a, result_of m = Ok a -> Q a.

(** Same list, cursor and offset: what is kept of the view by a step that
    only touches other variables. *)
Definition same_view (a b : state) : Prop :=
  services a = services b /\ cursor a = cursor b /\ offset a = offset b.

(** The view as a key handler may leave it: the offset is kept or reset. *)
Definition offset_kept (st : state) (c : control) : Prop :=
  match c with
  | Continue st' | Break st' => offset st' = offset st \/ offset st' = 0
  end.


(** Case analysis on the first comparison of the goal. *)
Ltac case_cmp :=
  match goal with
  | |- context [?a >=? ?b] => destruct (Z.geb_spec a b)
  | |- context [?a <? ?b] => destruct (Z.ltb_spec a b)
  end.

(** ** Example data *)

Definition nginx : service :=
  Service (str "nginx.service") (str "loaded") (str "active") (str "running")
          (str "A high performance web server").

Definition sshd : service :=
  Service (str "sshd.service") (str "loaded") (str "inactive") (str "dead")
          (str "OpenSSH server daemon").

(** Two units listed, no query, the cursor on the first. *)
Definition browsing : state :=
  State [] [nginx; sshd] None [nginx; sshd] 0 0 (str "ready") (Json_list []).

(** Fifty units listed, the view at the top. *)
Definition fifty_units : state :=
  State [] (repeat nginx 50) None (repeat nginx 50) 0 0 (str "ready")
        (Json_list []).

(** The view of the query "ssh" over the two units. *)
Definition searching : state :=
  State [] [nginx; sshd] (Some (str "ssh")) [sshd] 0 0
        (str "filter set to 'ssh'") (Json_list []).

Definition newline : ascii := ascii_of_N 10.

(** A listing of the two units, with a line that is not a unit line. *)
Definition two_units_out : pystr :=
  str "nginx.service loaded active running A high performance web server"
  ++ [newline] ++ str "4 loaded units"
  ++ [newline] ++ str "sshd.service loaded inactive dead OpenSSH server daemon"
  ++ [newline].

Definition listing : proc := Completed 0 two_units_out [].

(** The service manager cannot be reached: exit status 1, nothing on the
    standard output. *)
Definition bus_down : proc :=
  Completed 1 [] (str "Failed to connect to bus: No such file or directory").

(** [sudo systemctl stop nginx.service] refused. *)
Definition access_denied : proc := Completed 1 [] (str "Access denied").

(** ** More Python: slices and padding *)

(** [l[start:stop]]: a negative bound counts from the end, a bound out of
    range is moved to the nearest end, bounds in the wrong order give the
    empty list. *)
Definition py_slice {A} (l : list A) (start stop : Z) : list A :=
  let bound i := if i <? 0 then Z.max 0 (i + len l) else Z.min i (len l) in
  take (Z.to_nat (bound stop - bound start)) (drop (Z.to_nat (bound start)) l).

(** [l[start:]] *)
Definition py_slice_from {A} (l : list A) (start : Z) : list A :=
  py_slice l start (len l).

(** [l[:stop]] *)
Definition py_slice_to {A} (l : list A) (stop : Z) : list A :=
  py_slice l 0 stop.

(** [enumerate(l)], counting from [i]. *)
Fixpoint enumerate_from {A} (i : Z) (l : list A) : list (Z * A) :=
  match l with
  | [] => []
  | x :: t => (i, x) :: enumerate_from (i + 1) t
  end.

(** The format [{s:<width}], which is [s.ljust(width)]: spaces are added
    on the right up to [width]; a longer string is left as it is. *)
Definition ljust (width : nat) (s : pystr) : pystr :=
  s ++ repeat " "%char (width - length s)%nat.

(** ** Rendering *)

(** One call [stdscr.addnstr(y, 0, text, n, attr)] of the list area: [n]
    bounds the characters written, [reverse] says that [attr] is
    [A_REVERSE], the mark of the selected row. *)
Record row := Row {
  row_y : Z;
  row_text : pystr;
  row_n : Z;
  row_reverse : bool
}.

(** The text of the row of one unit. *)
Definition row_line (marks : list pystr) (svc : service) : pystr :=
  let col_unit := 32%nat in
  let col_load := 8%nat in
  let col_active := 10%nat in
  let col_sub := 12%nat in
  let mark_char := if mem (svc_unit svc) marks then str "*" else str " " in
  mark_char ++ str " " ++ ljust col_unit (svc_unit svc)
  ++ str " " ++ ljust col_load (svc_load svc)
  ++ str " " ++ ljust col_active (svc_active svc)
  ++ str " " ++ ljust col_sub (svc_sub svc)
  ++ str " " ++ svc_description svc.

(** The [for i, svc in enumerate(visible)] loop of [draw_main] on a
    terminal of [h] rows and [w] columns: the calls of [addnstr] it makes,
    in order.  (The header, the footer and the status line of [draw_main]
    are not part of it.) *)
Definition draw_main_rows (h w : Z) (services : list service)
    (cursor offset : Z) (marks : list pystr) : list row :=
  let top := 1 in
  let bottom := h - 3 in
  let max_lines := bottom - top + 1 in
  let visible := py_slice services offset (offset + max_lines) in
  map (fun '(i, svc) =>
         let line_no := top + i in
         let is_selected := (offset + i) =? cursor in
         Row line_no (row_line marks svc) (w - 1) is_selected)
      (enumerate_from 0 visible).

(** The rows of a frame that the loop draws. *)
Definition rows_of (h w : Z) (st : state) : list row :=
  draw_main_rows h w (services st) (cursor st) (offset st) (marks st).

(** The nine lines that [show_details_popup] starts with. *)
Definition details_head (svc : service) : list pystr :=
  [str "Unit: " ++ svc_unit svc; str "Load: " ++ svc_load svc;
   str "Active: " ++ svc_active svc; str "Sub: " ++ svc_sub svc;
   []; str "Description:"; svc_description svc; [];
   str "Recent logs (last 10 lines):"].

(** The [for i, line in enumerate(lines)] loop of [show_details_popup],
    with its [break]: the calls [win.addnstr(1 + i, 1, trimmed, win_w - 2)]
    as pairs of row and text. *)
Fixpoint details_loop (win_h win_w : Z) (lines : list (Z * pystr))
  : list (Z * pystr) :=
  match lines with
  | [] => []
  | (i, line) :: rest =>
      if i + 1 >=? win_h - 1 then []
      else let trimmed := py_slice_to line (win_w - 2) in
           (1 + i, trimmed) :: details_loop win_h win_w rest
  end.

(** [show_details_popup] on a terminal of [h] rows and [w] columns, with
    the outcome of [journalctl -u unit -n 10 --no-pager]: the calls of
    [win.addnstr] it makes, in order, as pairs of window row and text:
    those of the loop, then the closing line on row [win_h - 2].  A later
    write on a row covers the start of an earlier one. *)
Definition show_details_popup (h w : Z) (svc : service) (journal : proc)
  : list (Z * pystr) :=
  let win_h := Z.min 14 (h - 4) in
  let win_w := Z.min 100 (w - 4) in
  let lines := details_head svc in
  let log_lines :=
    match journal with
    | Completed _ out _ =>
        py_slice_from (splitlines out) (- (win_h - len lines - 2))
    | Launch_failed msg => [msg]
    end in
  let lines := lines ++ log_lines in
  details_loop win_h win_w (enumerate_from 0 lines)
  ++ [(win_h - 2,
       py_slice_to (str "Press any key to close...") (win_w - 2))].

(** ** Dialogs *)

(** [confirm_prompt] over the keys typed from its first [getch] on: the
    answer and the keys left for the main loop; [None] while it waits. *)
Fixpoint confirm_prompt (keys : list Z) : option (bool * list Z) :=
  match keys with
  | [] => None
  | k :: rest =>
      if (k =? 121) || (k =? 89) then Some (true, rest)
      else if (k =? 110) || (k =? 78) then Some (false, rest)
      else confirm_prompt rest
  end.

(** The keys that end [confirm_prompt]: y, Y, n, N. *)
Definition answers (k : Z) : bool :=
  (k =? 121) || (k =? 89) || (k =? 110) || (k =? 78).

(** [prompt_input]: [typed] is what [win.getstr] gave, decoded, or an
    exception of it; the value is the text without the whitespace around. *)
Definition prompt_input (typed : result pystr) : option pystr :=
  match typed with
  | Ok s => Some (strip s)
  | Raise _ => None
  end.

(** ** Predicates on sessions *)

Definition state_of (c : control) : state :=
  match c with
  | Continue st | Break st => st
  end.

(** The filtered view is the filter of the full list under the active
    query, and the active query is no empty string. *)
Definition view_fresh (st : state) : Prop :=
  services st = apply_filter (all_services st) (filter_q st)
  /\ filter_q st <> Some [].

(** The cursor is on a unit, when there is one. *)
Definition selection_valid (st : state) : Prop :=
  services st <> [] ->
  0 <= cursor st < len (services st)
  /\ exists svc, py_index (services st) (cursor st) = Ok svc.

(** Every write of the mark file that the key causes succeeds. *)
Definition writes (k : key) : Prop :=
  match k with
  | Key_q (Write_failed _) => False
  | Key_m (Write_failed _) => False
  | _ => True
  end.

(** The last [n] elements. *)
Definition lastn {A} (n : nat) (l : list A) : list A :=
  drop (length l - n)%nat l.

(** No whitespace at either end. *)
Definition stripped (s : pystr) : Prop :=
  (forall c t, s = c :: t -> isspace c = false)
  /\ (forall c t, s = t ++ [c] -> isspace c = false).

(** ** A plain unit listing *)

(** A record as a listing can carry it: four fields and a description
    that is not empty, starts with no whitespace and holds no line
    boundary. *)
Definition listable (s : service) : Prop :=
  is_word (svc_unit s) /\ is_word (svc_load s)
  /\ is_word (svc_active s) /\ is_word (svc_sub s)
  /\ (exists c t, svc_description s = c :: t /\ isspace c = false)
  /\ forallb (fun c => negb (is_linebreak c)) (svc_description s) = true.

(** The line of a unit in the plain listing: the five columns, one space
    between them. *)
Definition unit_line (s : service) : pystr :=
  svc_unit s ++ str " " ++ svc_load s ++ str " " ++ svc_active s
  ++ str " " ++ svc_sub s ++ str " " ++ svc_description s.

(** The listing of some units, one line each, each ended by a line
    feed. *)
Definition listing_of (l : list service) : pystr :=
  concat (map (fun s => unit_line s ++ [newline]) l).

(** ** More example data *)

(** Mark the selected unit, then quit; both writes succeed. *)
Definition marking_session : list (Z * key) :=
  [(24, Key_m Written); (24, Key_q Written)].

(** A mark list that holds an identifier twice, as a mark file written by
    hand can. *)
Definition repeated_marks : list pystr :=
  [str "nginx.service"; str "sshd.service"; str "nginx.service"].

(** The state that [main_loop] builds from such a file and the listing
    of the two units. *)
Definition marked_twice : state :=
  State repeated_marks [nginx; sshd] None [nginx; sshd] 0 0 (str "ready")
        (Json_list repeated_marks).

(** The view of the query "s" over the two units: both match. *)
Definition both_match : state :=
  State [] [nginx; sshd] (Some (str "s")) [nginx; sshd] 0 0
        (str "filter set to 's'") (Json_list []).

(** The same key pressed once at each of the terminal heights [hs]. *)
Definition presses (k : key) (hs : list Z) : list (Z * key) :=
  map (fun h => (h, k)) hs.

(** The cursors of the frames drawn, in order. *)
Definition cursors (log : list effect) : list Z :=
  map (fun d => cursor (snd d)) (frames log).
(** * Proofs *)

(** ** Strings *)

Section StringFacts.

Lemma startswith_spec (p s : pystr) :
  startswith p s = true <-> exists post, s = p ++ post.
Proof.
  revert s. induction p as [|a p IH]; intros s; simpl.
  - split; [intros _; now exists s | reflexivity].
  - destruct s as [|b s].
    + split; [discriminate | intros [post H]; discriminate].
    + rewrite andb_true_iff, Ascii.eqb_eq, IH. split.
      * intros [-> [post ->]]. now exists post.
      * intros [post H]. injection H as -> ->. split; [reflexivity | now exists post].
Qed.

Lemma contains_spec (needle hay : pystr) :
  contains needle hay = true <-> substring_of needle hay.
Proof.
  unfold substring_of. induction hay as [|c hay IH].
  - simpl. rewrite orb_false_r, startswith_spec. split.
    + intros [post H]. now exists [], post.
    + intros [pre [post H]]. destruct pre; [| discriminate].
      now exists post.
  - cbn [contains]. rewrite orb_true_iff, startswith_spec, IH. split.
    + intros [[post H] | [pre [post H]]].
      * now exists [], post.
      * exists (c :: pre), post. now rewrite H.
    + intros [[|d pre] [post H]].
      * left. now exists post.
      * right. injection H as -> ->. now exists pre, post.
Qed.

Lemma contains_empty (hay : pystr) : contains [] hay = true.
Proof. destruct hay; reflexivity. Qed.

Lemma pystr_eqb_eq (a b : pystr) : pystr_eqb a b = true <-> a = b.
Proof.
  unfold pystr_eqb. destruct (List.list_eq_dec ascii_dec a b); split;
    congruence.
Qed.

Lemma pystr_eqb_refl (a : pystr) : pystr_eqb a a = true.
Proof. now apply pystr_eqb_eq. Qed.

Lemma mem_In (x : pystr) (l : list pystr) : mem x l = true <-> In x l.
Proof.
  unfold mem. rewrite existsb_exists. split.
  - intros [y [Hy E]]. apply pystr_eqb_eq in E. now subst.
  - intros H. exists x. split; [assumption | apply pystr_eqb_refl].
Qed.

End StringFacts.

(** ** Filter Engine *)

Section FilterEngine.

Lemma filter_loop_eq (ql : pystr) (l acc : list service) :
  fold_left (fun out s => if svc_matches ql s then out ++ [s] else out) l acc
  = acc ++ List.filter (svc_matches ql) l.
Proof.
  revert acc. induction l as [|s l IH]; intros acc; simpl.
  - now rewrite app_nil_r.
  - rewrite IH. destruct (svc_matches ql s); [| reflexivity].
    now rewrite <- app_assoc.
Qed.

(** With a query that counts as true the result is the list of the
    matching services, in the order of the full list. *)
Lemma apply_filter_some (L : list service) (c : ascii) (q : pystr) :
  apply_filter L (Some (c :: q)) = List.filter (svc_matches (lower (c :: q))) L.
Proof. unfold apply_filter. now rewrite filter_loop_eq. Qed.

Lemma apply_filter_falsy (L : list service) (q : option pystr) :
  truthy q = false -> apply_filter L q = L.
Proof. destruct q as [[|c q]|]; [reflexivity | discriminate | reflexivity]. Qed.

Lemma sublist_bool_filter {A} (f : A -> bool) (l : list A) :
  sublist (List.filter f l) l.
Proof.
  induction l as [|a l IH]; simpl.
  - constructor.
  - destruct (f a); now constructor.
Qed.

Lemma svc_matches_spec (ql : pystr) (s : service) :
  svc_matches ql s = true
  <-> substring_of ql (lower (svc_unit s))
      \/ substring_of ql (lower (svc_description s)).
Proof.
  unfold svc_matches. now rewrite orb_true_iff, !contains_spec.
Qed.

Lemma substring_of_empty (hay : pystr) : substring_of [] hay.
Proof. now exists [], hay. Qed.

(** C2. For every full list [L] and query [q], [apply_filter L q] is a
    subsequence of [L] in the order of [L]; every element of the result
    contains the query, both put to lower case, as a substring of its
    identifier or of its description; and when [q] is [None] or the empty
    string the result is [L]. *)
Theorem apply_filter_spec (L : list service) (q : option pystr) :
  sublist (apply_filter L q) L
  /\ (forall qs s, q = Some qs -> In s (apply_filter L q) ->
        substring_of (lower qs) (lower (svc_unit s))
        \/ substring_of (lower qs) (lower (svc_description s)))
  /\ (q = None \/ q = Some [] -> apply_filter L q = L).
Proof.
  split; [| split].
  - destruct q as [[|c q]|]; try reflexivity.
    rewrite apply_filter_some. apply sublist_bool_filter.
  - intros qs s -> Hin. destruct qs as [|c qs].
    + left. apply substring_of_empty.
    + rewrite apply_filter_some in Hin. apply filter_In in Hin.
      now apply svc_matches_spec.
  - intros [-> | ->]; reflexivity.
Qed.

(** Idempotence: the same list and query give the same view, and the view
    filtered again by its own query is itself. *)
Lemma apply_filter_idem (L : list service) (q : option pystr) :
  apply_filter (apply_filter L q) q = apply_filter L q.
Proof.
  destruct q as [[|c q]|]; try reflexivity.
  rewrite !apply_filter_some. induction L as [|s L IH]; simpl; [reflexivity|].
  destruct (svc_matches _ s) eqn:E; simpl; [rewrite E; f_equal |]; exact IH.
Qed.

End FilterEngine.
(** ** Viewport Controller *)

Section Viewport.

Lemma frames_app (a b : list effect) : frames (a ++ b) = frames a ++ frames b.
Proof. unfold frames. now rewrite !flat_map_concat_map, map_app, concat_app. Qed.

Lemma len_nil {A} : len (@nil A) = 0.
Proof. reflexivity. Qed.

Lemma len_pos {A} (l : list A) : l <> [] -> 0 < len l.
Proof. destruct l; [congruence | unfold len; simpl; lia]. Qed.

Lemma len_nonneg {A} (l : list A) : 0 <= len l.
Proof. unfold len. lia. Qed.

Lemma clamp_cursor_fields (st : state) :
  services (clamp_cursor st) = services st
  /\ offset (clamp_cursor st) = offset st
  /\ filter_q (clamp_cursor st) = filter_q st
  /\ all_services (clamp_cursor st) = all_services st
  /\ marks (clamp_cursor st) = marks st
  /\ status_msg (clamp_cursor st) = status_msg st
  /\ marks_file (clamp_cursor st) = marks_file st.
Proof.
  unfold clamp_cursor. destruct (cursor st <? 0);
    match goal with |- context [if ?b then _ else _] => destruct b end;
    repeat split.
Qed.

Lemma clamp_cursor_range (st : state) :
  (services st <> [] ->
     0 <= cursor (clamp_cursor st) < len (services st))
  /\ (services st = [] -> cursor (clamp_cursor st) = 0).
Proof.
  unfold clamp_cursor.
  destruct (Z.ltb_spec (cursor st) 0) as [Hneg | Hpos]; simpl;
    match goal with |- context [?a >=? ?b] =>
      destruct (Z.geb_spec a b) as [Hge | Hlt] end; simpl; split; intros H;
    try (apply len_pos in H); try (rewrite H, ?len_nil in *); simpl in *;
    try lia.
Qed.


Lemma scroll_fields (vh : Z) (st : state) :
  services (scroll vh st) = services st
  /\ cursor (scroll vh st) = cursor st.
Proof.
  unfold scroll. destruct (cursor st <? offset st);
    [| destruct (cursor st >=? offset st + vh)]; split; reflexivity.
Qed.

Lemma scroll_window (vh : Z) (st : state) :
  1 <= vh -> 0 <= cursor st -> 0 <= offset st ->
  0 <= offset (scroll vh st)
  /\ offset (scroll vh st) <= cursor st
  /\ cursor st < offset (scroll vh st) + vh.
Proof.
  intros Hvh Hc Ho. unfold scroll.
  destruct (Z.ltb_spec (cursor st) (offset st)); simpl; [lia |].
  destruct (Z.geb_spec (cursor st) (offset st + vh)); simpl; lia.
Qed.

Lemma max_lines_pos (h : Z) : 1 <= max_lines h.
Proof. unfold max_lines. lia. Qed.

Lemma clamp_cursor_nonneg (st : state) : 0 <= cursor (clamp_cursor st).
Proof.
  destruct (clamp_cursor_range st) as [Hne He].
  destruct (services st) eqn:E; [rewrite He; [lia | reflexivity] |].
  apply Hne. discriminate.
Qed.

(** What the head of the loop establishes, whatever the keys did to the
    cursor, as long as the offset was not negative. *)
Lemma frame_viewport (h : Z) (st : state) :
  0 <= offset st ->
  viewport_ok (max_lines h) (frame h st) /\ 0 <= offset (frame h st).
Proof.
  intros Ho. unfold frame, viewport_ok.
  destruct (clamp_cursor_fields st) as (Hs & Hoff & _).
  destruct (clamp_cursor_range st) as [Hne He].
  destruct (scroll_fields (max_lines h) (clamp_cursor st)) as [Hs' Hc'].
  destruct (scroll_window (max_lines h) (clamp_cursor st) (max_lines_pos h)
              (clamp_cursor_nonneg st)) as (H1 & H2 & H3); [lia |].
  rewrite Hs', Hc', Hs. repeat split; try assumption; try lia; auto.
  apply Hne; assumption.
Qed.

Section Hoare.

Variable D : Z * state -> Prop.

Lemma sat_ret {A} (Q : A -> Prop) (a : A) :
  Q a -> sat D Q (ret a).
Proof. intros H. split; [constructor | intros a' [= <-]; exact H]. Qed.

Lemma sat_raise {A} (Q : A -> Prop) (e : exn) :
  sat D Q (raise e).
Proof. split; [constructor | discriminate]. Qed.

Lemma sat_lift {A} (Q : A -> Prop) (r : result A) :
  (forall a, r = Ok a -> Q a) -> sat D Q (lift r).
Proof. intros H. split; [constructor | exact H]. Qed.

Lemma sat_exec (Q : unit -> Prop) (cmd : list pystr) :
  Q tt -> sat D Q (emit (Exec cmd)).
Proof. intros H. split; [constructor | intros [] _; exact H]. Qed.

Lemma sat_draw (Q : unit -> Prop) (h : Z) (st : state) :
  D (h, st) -> Q tt -> sat D Q (emit (Draw h st)).
Proof.
  intros HD H. split; [repeat constructor; exact HD | intros [] _; exact H].
Qed.

Lemma sat_bind {A B} (P : A -> Prop) (Q : B -> Prop)
    (m : M A) (k : A -> M B) :
  sat D P m -> (forall a, P a -> sat D Q (k a)) -> sat D Q (bind m k).
Proof.
  destruct m as [log [a | e]]; intros [HD HP] Hk; unfold bind.
  - destruct (Hk a (HP a eq_refl)) as [HD' HQ].
    destruct (k a) as [log' r]. split.
    + simpl in *. rewrite frames_app. apply Forall_app. now split.
    + exact HQ.
  - split; [exact HD | discriminate].
Qed.

Lemma sat_weaken {A} (P Q : A -> Prop) (m : M A) :
  sat D P m -> (forall a, P a -> Q a) -> sat D Q m.
Proof. intros [HD HP] H. split; [exact HD | intros a E; apply H, HP, E]. Qed.

Lemma sat_confirmed_action (ok : bool)
    (name done unit : pystr) (action : proc) (st : state) :
  sat D (fun st' => offset st' = offset st /\ filter_q st' = filter_q st)
      (confirmed_action ok name done unit action st).
Proof.
  unfold confirmed_action. destruct ok.
  - eapply sat_bind; [apply sat_exec with (Q := fun _ => True); exact I |].
    intros _ _. destruct (run_action action). now apply sat_ret.
  - now apply sat_ret.
Qed.

Lemma sat_refetch (fetch : proc) (st : state) :
  sat D (fun st' => offset st' = offset st) (refetch fetch st).
Proof.
  unfold refetch.
  eapply sat_bind; [apply sat_exec with (Q := fun _ => True); exact I |].
  intros _ _. eapply sat_bind; [apply sat_lift with (Q := fun _ => True); auto |].
  intros all _. now apply sat_ret.
Qed.

End Hoare.

Ltac sat_action :=
  eapply sat_bind;
  [ match goal with
    | |- sat _ _ (if ?b then _ else _) =>
        destruct b; apply sat_confirmed_action
    end
  | intros ? [? ?]; eapply sat_bind; [apply sat_refetch |];
    intros ? ?; apply sat_ret; simpl; left; congruence ].

Lemma sat_handle (h : Z) (k : key) (st : state) :
  sat (fun d => fst d = h /\ same_view (snd d) st) (offset_kept st)
      (handle h k st).
Proof.
  unfold handle.
  destruct k; try (apply sat_ret; simpl; auto; fail).
  - (* r *)
    eapply sat_bind;
      [apply sat_draw with (Q := fun _ => True); [repeat split | exact I] |].
    intros _ _. eapply sat_bind; [apply sat_refetch |].
    intros st2 H2. apply sat_ret. simpl. now left.
  - (* m *)
    destruct (services st); [apply sat_ret; simpl; auto |].
    eapply sat_bind; [apply sat_lift with (Q := fun _ => True); auto |].
    intros svc _. apply sat_ret. simpl. left.
    now destruct (mem _ _).
  - (* Enter *)
    destruct (services st); [apply sat_ret; simpl; auto |].
    eapply sat_bind; [apply sat_lift with (Q := fun _ => True); auto |].
    intros svc _.
    eapply sat_bind; [apply sat_exec with (Q := fun _ => True); exact I |].
    intros _ _. apply sat_ret. simpl. auto.
  - (* s *)
    destruct (services st); [apply sat_ret; simpl; auto |].
    eapply sat_bind; [apply sat_lift with (Q := fun _ => True); auto |].
    intros svc _. sat_action.
  - (* e *)
    destruct (services st); [apply sat_ret; simpl; auto |].
    eapply sat_bind; [apply sat_lift with (Q := fun _ => True); auto |].
    intros svc _.
    eapply sat_bind; [apply sat_exec with (Q := fun _ => True); exact I |].
    intros _ _. destruct is_enabled; [| apply sat_raise]. sat_action.
  - (* n *)
    destruct (filter_q st) as [[|c q]|]; try (apply sat_ret; simpl; auto; fail).
    destruct (services st); [apply sat_ret; simpl; auto |].
    eapply sat_bind; [apply sat_lift with (Q := fun _ => True); auto |].
    intros [i|] _; apply sat_ret; simpl; auto.
  - (* N *)
    destruct (filter_q st) as [[|c q]|]; try (apply sat_ret; simpl; auto; fail).
    destruct (services st); [apply sat_ret; simpl; auto |].
    eapply sat_bind; [apply sat_lift with (Q := fun _ => True); auto |].
    intros [i|] _; apply sat_ret; simpl; auto.
Qed.

Lemma sat_iteration (h : Z) (k : key) (st : state) :
  0 <= offset st ->
  sat (fun d => viewport_ok (max_lines (fst d)) (snd d))
      (fun c => match c with Continue st' | Break st' => 0 <= offset st' end)
      (iteration h k st).
Proof.
  intros Ho. unfold iteration.
  destruct (frame_viewport h st Ho) as [Hv Hf].
  eapply sat_bind; [apply sat_draw with (Q := fun _ => True); [exact Hv | exact I] |].
  intros _ _. destruct (sat_handle h k (frame h st)) as [HD HQ]. split.
  - eapply Forall_impl; [exact HD |].
    intros [h' s] [E (E1 & E2 & E3)]. simpl in *. subst h'.
    unfold viewport_ok in *. now rewrite E1, E2, E3.
  - intros c E. specialize (HQ c E). destruct c; simpl in HQ; lia.
Qed.

Lemma sat_main_loop_from (evs : list (Z * key)) (st : state) :
  0 <= offset st ->
  sat (fun d => viewport_ok (max_lines (fst d)) (snd d)) (fun _ => True)
      (main_loop_from evs st).
Proof.
  revert st. induction evs as [|[h k] evs IH]; intros st Ho; simpl.
  - now apply sat_ret.
  - eapply sat_bind; [apply sat_iteration; exact Ho |].
    intros [st' | st'] H; [now apply IH | now apply sat_ret].
Qed.

(** Every turn of the loop draws its frame first, so the frames of a
    session are as many as the keys read, at the least. *)
Lemma iteration_draws_frame (h : Z) (k : key) (st : state) :
  exists rest,
    frames (log_of (iteration h k st)) = (h, frame h st) :: rest.
Proof.
  unfold iteration. cbn [emit bind].
  destruct (handle h k (frame h st)) as [log r]. simpl. eauto.
Qed.

(** C1. For every sequence of events, that is keys of any kind with the
    terminal height at each of them, so cursor movements by one or by a
    page, list replacements by refresh, action or query change, and
    changes of the viewport height, every frame that is drawn satisfies
    [0 <= offset <= cursor < offset + viewport height] when the filtered
    list is not empty and [cursor = 0] when it is empty. *)
Theorem viewport_invariant (w0 : write_outcome) (file : file_content)
    (fetch0 : proc) (evs : list (Z * key)) :
  Forall (fun d =>
            let vh := max_lines (fst d) in
            let st := snd d in
            (services st <> [] ->
               0 <= offset st /\ offset st <= cursor st
               /\ cursor st < offset st + vh)
            /\ (services st = [] -> cursor st = 0))
         (frames (log_of (main_loop w0 file fetch0 evs))).
Proof.
  assert (H : sat (fun d => viewport_ok (max_lines (fst d)) (snd d))
                  (fun _ => True) (main_loop w0 file fetch0 evs)).
  { unfold main_loop.
    eapply sat_bind; [apply sat_lift with (Q := fun _ => True); auto |].
    intros f _.
    eapply sat_bind; [apply sat_exec with (Q := fun _ => True); exact I |].
    intros _ _.
    eapply sat_bind; [apply sat_lift with (Q := fun _ => True); auto |].
    intros all _. apply sat_main_loop_from. simpl. lia. }
  destruct H as [H _]. eapply Forall_impl; [exact H |].
  intros [h st] [H1 H2]. simpl in *. split; [| exact H2].
  intros Hne. destruct (H1 Hne) as (? & ? & ? & ?). auto.
Qed.

End Viewport.

(** *** What a frame keeps *)

Section FrameKeeps.

Lemma frame_fields (h : Z) (st : state) :
  services (frame h st) = services st /\ marks (frame h st) = marks st.
Proof.
  unfold frame, scroll.
  destruct (clamp_cursor_fields st) as (H1 & _ & _ & _ & H2 & _).
  repeat case_cmp; simpl; now rewrite ?H1, ?H2.
Qed.

Lemma frame_cursor_stable (h : Z) (st : state) :
  0 <= cursor st < len (services st) -> cursor (frame h st) = cursor st.
Proof.
  intros H. unfold frame. destruct (scroll_fields (max_lines h) (clamp_cursor st))
    as [_ ->].
  unfold clamp_cursor. destruct (Z.ltb_spec (cursor st) 0); [lia |].
  destruct (Z.geb_spec (cursor st) (len (services st))); [lia | reflexivity].
Qed.

Lemma frame_other_fields (h : Z) (st : state) :
  services (frame h st) = services st
  /\ all_services (frame h st) = all_services st
  /\ filter_q (frame h st) = filter_q st
  /\ marks (frame h st) = marks st
  /\ marks_file (frame h st) = marks_file st
  /\ status_msg (frame h st) = status_msg st.
Proof.
  unfold frame, scroll.
  destruct (clamp_cursor_fields st) as (H1 & _ & H2 & H3 & H4 & H5 & H6).
  repeat case_cmp; simpl; now rewrite ?H1, ?H2, ?H3, ?H4, ?H5, ?H6.
Qed.

End FrameKeeps.
(** ** Session Controller *)

Section Session.

(** A view at the top stays at the top in the next frame. *)
Lemma frame_at_top (h : Z) (st : state) :
  cursor st = 0 -> offset st = 0 ->
  cursor (frame h st) = 0 /\ offset (frame h st) = 0.
Proof.
  intros Hc Ho. assert (Hm := max_lines_pos h).
  destruct st as [m a q l c o s f]. simpl in Hc, Ho. subst c o.
  assert (Hl := len_nonneg l).
  unfold frame, clamp_cursor, scroll. simpl.
  case_cmp; simpl; [replace (Z.max 0 (len l - 1)) with 0 by lia |];
    simpl; case_cmp; simpl; lia.
Qed.

(** C6. For every state, submitting a search sets the Active Query to the
    text entered, or clears it when the text is empty or absent, applies
    the filter again to the current full list, and sets cursor and offset
    to 0; they are still 0 in the frame drawn next. *)
Theorem search_submit_resets (h h' : Z) (val : option pystr) (st : state) :
  exists st',
    handle h (Key_slash val) st = ret (Continue st')
    /\ filter_q st' = match val with
                      | Some (c :: v) => Some (c :: v)
                      | _ => None
                      end
    /\ all_services st' = all_services st
    /\ services st' = apply_filter (all_services st) (filter_q st')
    /\ cursor st' = 0 /\ offset st' = 0
    /\ cursor (frame h' st') = 0 /\ offset (frame h' st') = 0.
Proof.
  eexists. split; [reflexivity |].
  destruct val as [[|c v]|]; simpl; repeat split;
    apply (frame_at_top h'); reflexivity.
Qed.

(** C10. When the Active Query is unset or the filtered view is empty,
    the keys [n] and [N] change nothing: cursor, offset, filtered view
    and status message are those of before, and nothing is drawn or run. *)
Theorem match_keys_noop (h : Z) (st : state) :
  filter_q st = None \/ services st = [] ->
  handle h Key_n st = ret (Continue st)
  /\ handle h Key_N st = ret (Continue st).
Proof.
  intros [H | H]; unfold handle; rewrite H; simpl.
  - split; reflexivity.
  - destruct (filter_q st) as [[|c q]|]; split; reflexivity.
Qed.

(** C5 (Scenario A). From cursor 0 and offset 0, with 50 units in the
    filtered view and a viewport of 10 lines, twelve presses of the down
    key lead to cursor 12 and offset 3.  The frames drawn on the way show
    offset 0 up to cursor 9 and offset 1 = 10 - 10 + 1 at cursor 10. *)
Theorem scenario_a_twelve_down (h : Z) (st : state) :
  len (services st) = 50 -> max_lines h = 10 ->
  cursor st = 0 -> offset st = 0 ->
  exists st',
    result_of (main_loop_from (repeat (h, KEY_DOWN) 12) st) = Ok (Continue st')
    /\ map view (frames (log_of (main_loop_from (repeat (h, KEY_DOWN) 12) st)))
       = [(0, 0); (1, 0); (2, 0); (3, 0); (4, 0); (5, 0); (6, 0); (7, 0);
          (8, 0); (9, 0); (10, 1); (11, 2)]
    /\ view (h, frame h st') = (12, 3).
Proof.
  intros Hlen Hh Hc Ho.
  assert (h = 13) as -> by (unfold max_lines in Hh; lia).
  destruct st as [m a q l c o s f]. simpl in Hlen, Hc, Ho. subst c o.
  assert (Hn : length l = 50%nat) by (unfold len in Hlen; lia).
  do 50 (destruct l as [|? l]; [discriminate Hn |]).
  destruct l; [| discriminate Hn].
  eexists. split; [vm_compute; reflexivity |].
  split; vm_compute; reflexivity.
Qed.

Lemma py_index_nil {A} (i : Z) : py_index (@nil A) i = Raise IndexError.
Proof.
  unfold py_index.
  match goal with |- (if ?b then _ else _) = _ => destruct b end;
    [destruct (Z.to_nat _) |]; reflexivity.
Qed.

(** C8. When a confirmed lifecycle action fails, [run_action] returning
    [(False, out)], the status message is "error: " followed by the first
    60 characters of [out] stripped of surrounding whitespace, and the
    directory is queried and the filter applied again all the same: for
    the key [s] (stop an active unit, start another) and for the key [e]
    (disable an enabled unit, enable another). *)
Theorem action_failure_reported (h : Z) (st : state) (svc : service)
    (action fetch : proc) (out : pystr) :
  py_index (services st) (cursor st) = Ok svc ->
  run_action action = (false, out) ->
  let st1 := set_status (str "error: " ++ take 60 (strip out)) st in
  let refetched :=
    match fetch_services fetch with
    | Ok all =>
        Ok (Continue (set_services (apply_filter all (filter_q st))
                        (set_all_services all st1)))
    | Raise e => Raise e
    end in
  handle h (Key_s true action fetch) st
  = ([Exec (action_cmd (if pystr_eqb (svc_active svc) (str "active")
                        then str "stop" else str "start") (svc_unit svc));
      Exec list_units_cmd], refetched)
  /\ (forall rc o e,
        handle h (Key_e (Completed rc o e) true action fetch) st
        = ([Exec [str "systemctl"; str "is-enabled"; svc_unit svc];
            Exec (action_cmd (if rc =? 0 then str "disable" else str "enable")
                    (svc_unit svc));
            Exec list_units_cmd], refetched))
  /\ (length (take 60 (strip out)) <= 60)%nat.
Proof.
  intros Hsel Hrun. simpl.
  assert (Hne : services st <> []).
  { intros E. rewrite E, py_index_nil in Hsel. discriminate. }
  split; [| split].
  - unfold handle. destruct (services st) eqn:E; [congruence |].
    rewrite Hsel. unfold confirmed_action, refetch. rewrite Hrun.
    destruct (pystr_eqb (svc_active svc) (str "active"));
      destruct (fetch_services fetch); reflexivity.
  - intros rc o e. unfold handle. destruct (services st) eqn:E; [congruence |].
    rewrite Hsel. unfold confirmed_action, refetch. rewrite Hrun.
    destruct (rc =? 0); destruct (fetch_services fetch); reflexivity.
  - rewrite length_take. lia.
Qed.

End Session.
(** ** Service Directory Gateway: parsing the unit listing *)

Section Listing.

Lemma lstrip_head (s : pystr) (c : ascii) (t : pystr) :
  lstrip s = c :: t -> isspace c = false.
Proof.
  induction s as [|a s IH]; simpl; [discriminate |].
  destruct (isspace a) eqn:E; [exact IH |].
  intros [= <- <-]. exact E.
Qed.

Lemma lstrip_idem (s : pystr) : lstrip (lstrip s) = lstrip s.
Proof.
  induction s as [|a s IH]; simpl; [reflexivity |].
  destruct (isspace a) eqn:E; [exact IH |]. simpl. now rewrite E.
Qed.

Lemma lstrip_suffix (s : pystr) : exists pre, s = pre ++ lstrip s.
Proof.
  induction s as [|a s [pre IH]]; simpl; [now exists [] |].
  destruct (isspace a).
  - exists (a :: pre). simpl. now rewrite <- IH.
  - now exists [].
Qed.

Lemma lstrip_length (s : pystr) : (length (lstrip s) <= length s)%nat.
Proof.
  destruct (lstrip_suffix s) as [pre E]. rewrite E at 2.
  rewrite length_app. lia.
Qed.

Lemma word_break_app (s w r : pystr) : word_break s = (w, r) -> s = w ++ r.
Proof.
  revert w r. induction s as [|a s IH]; simpl; intros w r.
  - now intros [= <- <-].
  - destruct (isspace a); [now intros [= <- <-] |].
    destruct (word_break s) as [w' r']. intros [= <- <-].
    simpl. f_equal. now apply IH.
Qed.

(** A word cut off a string that starts with a character that is not
    whitespace is not empty, so the rest is shorter. *)
Lemma word_break_shorter (c : ascii) (t w r : pystr) :
  isspace c = false -> word_break (c :: t) = (w, r) ->
  (length r < length (c :: t))%nat.
Proof.
  intros Hc H. pose proof (word_break_app _ _ _ H) as E.
  simpl in H. rewrite Hc in H. destruct (word_break t) as [w' r'].
  injection H as <- <-. rewrite E, length_app. simpl. lia.
Qed.

Lemma split_lstrip_nil (k : nat) (s : pystr) : lstrip s = [] -> split k s = [].
Proof. intros H. destruct k; simpl; now rewrite H. Qed.

Lemma split_step (k : nat) (s : pystr) (c : ascii) (t w r : pystr) :
  lstrip s = c :: t -> word_break (c :: t) = (w, r) ->
  split (S k) s = w :: split k r.
Proof. intros H1 H2. cbn [split]. now rewrite H1, H2. Qed.

Lemma split_zero (s : pystr) (c : ascii) (t : pystr) :
  lstrip s = c :: t -> split 0 s = [c :: t].
Proof. intros H. simpl. now rewrite H. Qed.

(** Enough cuts are as good as any number of cuts. *)
Lemma split_fuel (n m : nat) (s : pystr) :
  (length s <= n)%nat -> (length s <= m)%nat -> split n s = split m s.
Proof.
  revert m s. induction n as [|n IH]; intros m s Hn Hm.
  - destruct s; [| simpl in Hn; lia]. now destruct m.
  - destruct (lstrip s) as [|c t] eqn:E.
    + now rewrite !split_lstrip_nil.
    + destruct (word_break (c :: t)) as [w r] eqn:W.
      pose proof (word_break_shorter _ _ _ _ (lstrip_head _ _ _ E) W) as Hr.
      pose proof (lstrip_length s) as Hl. rewrite E in Hl.
      destruct m as [|m]; [simpl in *; lia |].
      rewrite (split_step n s c t w r E W), (split_step m s c t w r E W).
      f_equal. apply IH; simpl in *; lia.
Qed.

Lemma split_all_nil (s : pystr) : lstrip s = [] -> split_all s = [].
Proof. apply split_lstrip_nil. Qed.

Lemma split_all_cons (s : pystr) (c : ascii) (t w r : pystr) :
  lstrip s = c :: t -> word_break (c :: t) = (w, r) ->
  split_all s = w :: split_all r.
Proof.
  intros E W. unfold split_all.
  pose proof (word_break_shorter _ _ _ _ (lstrip_head _ _ _ E) W) as Hr.
  pose proof (lstrip_length s) as Hl. rewrite E in Hl.
  destruct (length s) as [|n] eqn:L; [simpl in *; lia |].
  rewrite (split_step n s c t w r E W). f_equal.
  apply split_fuel; simpl in *; lia.
Qed.

Lemma split_all_lstrip (s : pystr) : split_all (lstrip s) = split_all s.
Proof.
  destruct (lstrip s) as [|c t] eqn:E.
  - now rewrite (split_all_nil s E).
  - destruct (word_break (c :: t)) as [w r] eqn:W.
    rewrite <- E.
    rewrite (split_all_cons (lstrip s) c t w r), (split_all_cons s c t w r);
      auto. now rewrite lstrip_idem.
Qed.

(** [split k] against the full split: the same first [k] fields; when
    there are more, one last part that holds the remaining fields. *)
Lemma split_against_all (k : nat) (s : pystr) :
  ((length (split_all s) <= k)%nat -> split k s = split_all s)
  /\ ((k < length (split_all s))%nat ->
      exists d pre,
        split k s = take k (split_all s) ++ [d]
        /\ split_all d = drop k (split_all s)
        /\ s = pre ++ d).
Proof.
  revert s. induction k as [|k IH]; intros s.
  - destruct (lstrip s) as [|c t] eqn:E.
    + rewrite split_all_nil, split_lstrip_nil by assumption.
      split; [reflexivity | simpl; lia].
    + split.
      * destruct (word_break (c :: t)) as [w r] eqn:W.
        rewrite (split_all_cons s c t w r E W). simpl. lia.
      * intros _. destruct (lstrip_suffix s) as [pre Hpre].
        exists (c :: t), pre. rewrite (split_zero s c t E), <- E.
        rewrite split_all_lstrip. repeat split. exact Hpre.
  - destruct (lstrip s) as [|c t] eqn:E.
    + rewrite split_all_nil, split_lstrip_nil by assumption.
      split; [reflexivity | simpl; lia].
    + destruct (word_break (c :: t)) as [w r] eqn:W.
      rewrite (split_all_cons s c t w r E W), (split_step k s c t w r E W).
      destruct (IH r) as [IH1 IH2]. split.
      * intros H. simpl in H. f_equal. apply IH1. lia.
      * intros H. simpl in H.
        destruct IH2 as (d & pre & H1 & H2 & H3); [lia |].
        destruct (lstrip_suffix s) as [pre0 Hpre0].
        exists d, (pre0 ++ w ++ pre). simpl. rewrite H1. repeat split.
        -- exact H2.
        -- rewrite Hpre0 at 1. rewrite E, (word_break_app _ _ _ W), H3.
           now rewrite <- !app_assoc.
Qed.

Lemma word_break_word (s w r : pystr) :
  word_break s = (w, r) -> forallb (fun c => negb (isspace c)) w = true.
Proof.
  revert w r. induction s as [|a s IH]; simpl; intros w r.
  - now intros [= <- <-].
  - destruct (isspace a) eqn:E; [now intros [= <- <-] |].
    destruct (word_break s) as [w' r']. intros [= <- <-].
    simpl. rewrite E. simpl. now apply (IH w' r').
Qed.

(** The parts of the full split are fields. *)
Lemma split_all_words (s : pystr) : Forall is_word (split_all s).
Proof.
  remember (length s) as n eqn:En.
  assert (Hn : (length s <= n)%nat) by lia. clear En.
  revert s Hn. induction n as [|n IH]; intros s Hn.
  - destruct s; [constructor | simpl in Hn; lia].
  - destruct (lstrip s) as [|c t] eqn:E.
    + rewrite split_all_nil by exact E. constructor.
    + destruct (word_break (c :: t)) as [w r] eqn:W.
      rewrite (split_all_cons s c t w r E W).
      pose proof (word_break_shorter _ _ _ _ (lstrip_head _ _ _ E) W) as Hr.
      pose proof (lstrip_length s) as Hl. rewrite E in Hl.
      constructor; [| apply IH; simpl in *; lia].
      split; [| exact (word_break_word _ _ _ W)].
      simpl in W. rewrite (lstrip_head _ _ _ E) in W.
      destruct (word_break t). now injection W as <- <-.
Qed.

Lemma fetch_loop_by_line (lines : list pystr) (acc : list service) :
  exists recs : list (list service),
    fetch_loop lines acc = Ok (acc ++ concat recs)
    /\ Forall2 line_yields lines recs.
Proof.
  revert acc. induction lines as [|line lines IH]; intros acc.
  - exists []. simpl. rewrite app_nil_r. split; [reflexivity | constructor].
  - cbn [fetch_loop]. destruct (split_against_all 4 line) as [Hfew Hmany].
    destruct (Nat.ltb_spec (length (fields line)) 5) as [Hlt | Hge].
    + unfold fields in Hlt. rewrite Hfew by lia.
      unfold len. destruct (Z.ltb_spec (Z.of_nat (length (split_all line))) 5);
        [| lia].
      destruct (IH acc) as (recs & E & F). exists ([] :: recs). split.
      * exact E.
      * constructor; [| exact F]. unfold line_yields.
        destruct (Nat.ltb_spec (length (fields line)) 5);
          [reflexivity | unfold fields in *; lia].
    + unfold fields in Hge.
      destruct Hmany as (d & pre & Hs & Hd & Hpre); [lia |].
      destruct (split_all line) as [|f0 [|f1 [|f2 [|f3 [|f4 fs]]]]] eqn:Efs;
        try (simpl in Hge; lia).
      rewrite Hs. simpl.
      destruct (IH (acc ++ [Service f0 f1 f2 f3 d])) as (recs & E & F).
      exists ([Service f0 f1 f2 f3 d] :: recs). split.
      * rewrite E. simpl. now rewrite <- app_assoc.
      * constructor; [| exact F]. unfold line_yields, fields. rewrite Efs.
        simpl. exists d, pre. repeat split; assumption.
Qed.

(** C9. For every output of the unit listing, each line contributes to
    the Service List on its own and in order: a line with fewer than 5
    whitespace-separated fields contributes nothing, and every other line
    exactly one record, whose identifier, load state, active state and
    sub state are the first four fields and whose description is the end
    of the line from the fifth field on.  No line makes the parse fail. *)
Theorem fetch_services_by_line (rc : Z) (out err : pystr) :
  exists recs : list (list service),
    fetch_services (Completed rc out err) = Ok (concat recs)
    /\ Forall2 line_yields (splitlines out) recs.
Proof. apply (fetch_loop_by_line (splitlines out) []). Qed.

(** A directory query that ran to its end is parsed without exception,
    whatever its exit status and output. *)
Lemma fetch_services_total (rc : Z) (out err : pystr) :
  exists all, fetch_services (Completed rc out err) = Ok all.
Proof.
  destruct (fetch_loop_by_line (splitlines out) []) as (recs & H & _).
  now exists (concat recs).
Qed.

End Listing.
(** ** Match Navigator *)

Section Navigator.

Lemma range_up_nil (a b : Z) : b <= a -> range_up a b = [].
Proof.
  intros H. unfold range_up. now replace (Z.to_nat (b - a)) with 0%nat by lia.
Qed.

Lemma range_up_cons (a b : Z) : a < b -> range_up a b = a :: range_up (a + 1) b.
Proof.
  intros H. unfold range_up.
  replace (Z.to_nat (b - a)) with (S (Z.to_nat (b - (a + 1)))) by lia.
  cbn [seq map]. f_equal; [lia |].
  rewrite <- seq_shift, map_map. apply map_ext. intros k. lia.
Qed.

Lemma range_up_In (a b i : Z) : In i (range_up a b) <-> a <= i < b.
Proof.
  unfold range_up. rewrite in_map_iff. split.
  - intros (k & <- & Hk). apply in_seq in Hk. lia.
  - intros H. exists (Z.to_nat (i - a)). split; [lia |]. apply in_seq. lia.
Qed.

Lemma range_up_split (a m b : Z) :
  a <= m <= b -> range_up a b = range_up a m ++ range_up m b.
Proof.
  remember (Z.to_nat (m - a)) as n eqn:En. revert a En.
  induction n as [|n IH]; intros a En H.
  - assert (a = m) as -> by lia. now rewrite (range_up_nil m m) by lia.
  - destruct (Z.eq_dec m b) as [-> | Hne].
    + rewrite (range_up_nil b b) by lia. now rewrite app_nil_r.
    + rewrite (range_up_cons a b), (range_up_cons a m) by lia.
      simpl. f_equal. apply IH; lia.
Qed.

Lemma py_index_in_range {A} (l : list A) (i : Z) :
  0 <= i < len l ->
  exists a, py_index l i = Ok a /\ nth_error l (Z.to_nat i) = Some a.
Proof.
  intros H. unfold py_index.
  destruct (Z.ltb_spec i 0); [lia |].
  destruct (Z.leb_spec 0 i); [| lia]. destruct (Z.ltb_spec i (len l)); [| lia].
  simpl. destruct (nth_error l (Z.to_nat i)) eqn:E; [eauto |].
  apply nth_error_None in E. unfold len in H. lia.
Qed.

Lemma filter_all_true {A} (f : A -> bool) (l : list A) :
  (forall x, In x l -> f x = true) -> List.filter f l = l.
Proof.
  induction l as [|a l IH]; intros H; [reflexivity |]. simpl.
  rewrite (H a) by now left. f_equal. apply IH. intros x Hx. apply H. now right.
Qed.

Lemma filter_all_false {A} (f : A -> bool) (l : list A) :
  (forall x, In x l -> f x = false) -> List.filter f l = [].
Proof.
  induction l as [|a l IH]; intros H; [reflexivity |]. simpl.
  rewrite (H a) by now left. apply IH. intros x Hx. apply H. now right.
Qed.

(** *** Scans of one list under one lowered query *)

Section Scan.

Variables (ql : pystr) (svcs : list service).

(** On indices inside the list the scan raises nothing and stops at the
    first index that matches. *)
Lemma first_match_head (idxs : list Z) :
  (forall i, In i idxs -> 0 <= i < len svcs) ->
  first_match ql svcs idxs
  = Ok (head (List.filter (matches_at ql svcs) idxs)).
Proof.
  induction idxs as [|i idxs IH]; intros Hin; [reflexivity |].
  cbn [first_match List.filter]. unfold matches_at at 1.
  destruct (py_index_in_range svcs i) as (s & Hs & _); [apply Hin; now left |].
  rewrite Hs. destruct (svc_matches ql s); [reflexivity |].
  apply IH. intros j Hj. apply Hin. now right.
Qed.

Lemma after_In (a i : Z) :
  In i (after ql svcs a) -> a <= i < len svcs /\ matches_at ql svcs i = true.
Proof.
  unfold after. rewrite filter_In, range_up_In. tauto.
Qed.

Lemma after_split (a m : Z) :
  a <= m <= len svcs ->
  after ql svcs a
  = List.filter (matches_at ql svcs) (range_up a m) ++ after ql svcs m.
Proof.
  intros H. unfold after. now rewrite (range_up_split a m) by exact H; apply List.filter_app.
Qed.

(** The matches that follow the first one are the matches from the next
    index on. *)
Lemma after_tail (a i : Z) (rest : list Z) :
  after ql svcs a = i :: rest -> rest = after ql svcs (i + 1).
Proof.
  remember (Z.to_nat (len svcs - a)) as n eqn:En. revert a En.
  induction n as [|n IH]; intros a En H.
  - unfold after in H. rewrite range_up_nil in H by lia. discriminate.
  - unfold after in H. rewrite range_up_cons in H by lia.
    cbn [List.filter] in H. destruct (matches_at ql svcs a).
    + injection H as <- <-. reflexivity.
    + apply (IH (a + 1)); [lia | exact H].
Qed.

Lemma after_length (a : Z) :
  0 <= a -> (length (after ql svcs a) <= length svcs - Z.to_nat a)%nat.
Proof.
  intros H. unfold after.
  etransitivity; [apply List.filter_length_le |].
  unfold range_up. rewrite length_map, length_seq. unfold len. lia.
Qed.

(** Nothing matches beyond the last match. *)
Lemma after_last (a c : Z) :
  last (after ql svcs a) = Some c -> after ql svcs (c + 1) = [].
Proof.
  intros Hlast.
  assert (Hc : a <= c < len svcs).
  { apply last_Some_elem_of, list_elem_of_In in Hlast.
    now apply after_In in Hlast. }
  destruct (after ql svcs (c + 1)) as [|i rest] eqn:E; [reflexivity |].
  exfalso. rewrite (after_split a (c + 1)), E in Hlast by lia.
  destruct (proj2 (last_is_Some (i :: rest))) as [x Hx]; [discriminate |].
  rewrite last_app, Hx in Hlast. injection Hlast as ->.
  apply last_Some_elem_of, list_elem_of_In in Hx. rewrite <- E in Hx.
  apply after_In in Hx. lia.
Qed.

(** Nothing matches before the first match. *)
Lemma before_head (c : Z) :
  head (after ql svcs 0) = Some c ->
  List.filter (matches_at ql svcs) (range_up 0 c) = [].
Proof.
  intros Hhead.
  assert (Hc : 0 <= c < len svcs).
  { destruct (after ql svcs 0) as [|x l] eqn:E; [discriminate |].
    injection Hhead as ->. apply (after_In 0 c). rewrite E. now left. }
  rewrite (after_split 0 c) in Hhead by lia.
  destruct (List.filter (matches_at ql svcs) (range_up 0 c)) as [|j r] eqn:E;
    [reflexivity |].
  exfalso. injection Hhead as ->.
  assert (Hin : In c (List.filter (matches_at ql svcs) (range_up 0 c)))
    by (rewrite E; now left).
  apply filter_In in Hin. destruct Hin as [Hin _].
  apply range_up_In in Hin. lia.
Qed.

Lemma after_zero_pos :
  svcs <> [] ->
  after ql svcs 0
  = (if matches_at ql svcs 0 then [0] else []) ++ after ql svcs 1.
Proof.
  intros Hne. apply len_pos in Hne. unfold after.
  rewrite (range_up_cons 0) by lia. cbn [List.filter].
  now destruct (matches_at ql svcs 0).
Qed.

End Scan.

Lemma next_match_after (q : pystr) (svcs : list service) (c : Z) :
  -1 <= c -> next_match q svcs c = Ok (head (after (lower q) svcs (c + 1))).
Proof.
  intros H. unfold next_match, after. apply first_match_head.
  intros i Hi. apply range_up_In in Hi. lia.
Qed.

Lemma next_visits_after (presses : nat) (q : pystr) (svcs : list service)
    (c : Z) :
  -1 <= c -> (length (after (lower q) svcs (c + 1)) <= presses)%nat ->
  next_visits presses q svcs c = after (lower q) svcs (c + 1).
Proof.
  revert c. induction presses as [|p IH]; intros c Hc Hlen.
  - destruct (after (lower q) svcs (c + 1)); [reflexivity | simpl in Hlen; lia].
  - cbn [next_visits]. rewrite next_match_after by exact Hc.
    destruct (after (lower q) svcs (c + 1)) as [|i rest] eqn:E; [reflexivity |].
    simpl. f_equal. pose proof (after_tail _ _ _ _ _ E) as Hrest.
    assert (Hi : c + 1 <= i < len svcs).
    { apply (after_In (lower q) svcs (c + 1) i). rewrite E. now left. }
    rewrite Hrest. apply IH; [lia |]. rewrite <- Hrest. simpl in Hlen. lia.
Qed.

Lemma range_down_In (s i : Z) : In i (range_down s) <-> 0 <= i <= s.
Proof.
  unfold range_down. rewrite in_map_iff. split.
  - intros (k & <- & Hk). apply in_seq in Hk. lia.
  - intros H. exists (Z.to_nat (s - i)). split; [lia |]. apply in_seq. lia.
Qed.

Lemma next_from_last (q : pystr) (svcs : list service) (c : Z) :
  last (matching_indices (lower q) svcs) = Some c ->
  next_match q svcs c = Ok None.
Proof.
  intros H. change (matching_indices (lower q) svcs)
    with (after (lower q) svcs 0) in H.
  assert (Hc : 0 <= c).
  { apply last_Some_elem_of, list_elem_of_In, after_In in H. lia. }
  rewrite next_match_after by lia. now rewrite (after_last _ _ _ _ H).
Qed.

Lemma previous_from_first (q : pystr) (svcs : list service) (c : Z) :
  head (matching_indices (lower q) svcs) = Some c ->
  previous_match q svcs c = Ok None.
Proof.
  intros H. change (matching_indices (lower q) svcs)
    with (after (lower q) svcs 0) in H.
  assert (Hc : 0 <= c < len svcs).
  { destruct (after (lower q) svcs 0) as [|x l] eqn:E; [discriminate |].
    injection H as ->. apply (after_In (lower q) svcs 0 c). rewrite E.
    now left. }
  pose proof (before_head _ _ _ H) as Hnone.
  unfold previous_match. rewrite first_match_head.
  - rewrite filter_all_false; [reflexivity |].
    intros j Hj. apply range_down_In in Hj.
    destruct (matches_at (lower q) svcs j) eqn:Ej; [| reflexivity].
    assert (Hin : In j (List.filter (matches_at (lower q) svcs) (range_up 0 c))).
    { apply filter_In. split; [apply range_up_In; lia | exact Ej]. }
    rewrite Hnone in Hin. destruct Hin.
  - intros j Hj. apply range_down_In in Hj. lia.
Qed.

(** In a filtered view every index matches the query of the view. *)
Lemma filtered_view_all_match (L : list service) (c : ascii) (q : pystr) (i : Z) :
  0 <= i < len (apply_filter L (Some (c :: q))) ->
  matches_at (lower (c :: q)) (apply_filter L (Some (c :: q))) i = true.
Proof.
  intros H. unfold matches_at.
  destruct (py_index_in_range _ i H) as (s & Hs & Hn). rewrite Hs.
  apply nth_error_In in Hn. rewrite apply_filter_some in Hn.
  now apply filter_In in Hn.
Qed.

Lemma visits_from_zero (q : pystr) (svcs : list service) :
  next_visits (length svcs) q svcs 0 = after (lower q) svcs 1.
Proof.
  apply (next_visits_after (length svcs) q svcs 0); [lia |].
  pose proof (after_length (lower q) svcs 1 ltac:(lia)).
  change (0 + 1) with 1. lia.
Qed.

Lemma after_nil_list (ql : pystr) (a : Z) : after ql [] a = [] \/ a < 0.
Proof.
  destruct (Z.le_gt_cases 0 a) as [H | H]; [left | right; lia].
  unfold after. now rewrite range_up_nil by (rewrite len_nil; lia).
Qed.

Lemma matches_at_nil (ql : pystr) (i : Z) : matches_at ql [] i = false.
Proof. unfold matches_at. now rewrite py_index_nil. Qed.

(** The handlers of [n] and [N], given what their scan returns: a match
    becomes the cursor, no match becomes the status message. *)
Lemma handle_match_keys (h : Z) (st : state) (q : pystr) :
  filter_q st = Some q -> q <> [] -> services st <> [] ->
  (forall r, next_match q (services st) (cursor st) = Ok r ->
     handle h Key_n st
     = ret (Continue match r with
                     | Some i => set_cursor i st
                     | None => set_status (str "no more matches") st
                     end))
  /\ (forall r, previous_match q (services st) (cursor st) = Ok r ->
        handle h Key_N st
        = ret (Continue match r with
                        | Some i => set_cursor i st
                        | None => set_status (str "no previous match") st
                        end)).
Proof.
  intros Hq Hqne Hsne. unfold handle. rewrite Hq.
  destruct q as [|c0 q0]; [congruence |].
  destruct (services st) as [|s0 l]; [congruence |].
  split; intros r ->; reflexivity.
Qed.

(** Presses of [n] in the loop, one at each height of [hs], starting on
    index [c]: the frames show the cursor on [c] and then on each
    matching index after [c] in turn; the press after the last of them
    finds nothing and says so. *)
Lemma n_presses_visit (q : pystr) (svcs : list service) (hs : list Z) :
  q <> [] ->
  forall (st : state) (c : Z),
    filter_q st = Some q -> services st = svcs -> cursor st = c ->
    0 <= c < len svcs ->
    length hs = S (length (after (lower q) svcs (c + 1))) ->
    exists st',
      result_of (main_loop_from (presses Key_n hs) st) = Ok (Continue st')
      /\ cursors (log_of (main_loop_from (presses Key_n hs) st))
         = c :: after (lower q) svcs (c + 1)
      /\ cursor st' = default c (last (after (lower q) svcs (c + 1)))
      /\ status_msg st' = str "no more matches"
      /\ services st' = svcs.
Proof.
  intros Hqne. induction hs as [|h hs IH]; intros st c Hq Hs Hc Hrange Hlen;
    [discriminate Hlen |].
  assert (Hne : svcs <> []).
  { intros ->. unfold len in Hrange. simpl in Hrange. lia. }
  destruct (frame_other_fields h st) as (Fs & _ & Fq & _).
  assert (Fc : cursor (frame h st) = c).
  { rewrite <- Hc. apply frame_cursor_stable. rewrite Hc, Hs. exact Hrange. }
  destruct (handle_match_keys h (frame h st) q) as [Hn _];
    [now rewrite Fq | exact Hqne | now rewrite Fs, Hs |].
  rewrite Fs, Hs, Fc in Hn.
  specialize (Hn _ (next_match_after q svcs c ltac:(lia))).
  cbn [presses map main_loop_from]. unfold iteration. rewrite Hn.
  cbn [emit ret bind app].
  destruct (after (lower q) svcs (c + 1)) as [|i rest] eqn:E.
  - destruct hs; [| discriminate Hlen].
    exists (set_status (str "no more matches") (frame h st)).
    unfold cursors. cbn [presses map main_loop_from ret bind app head
                         log_of result_of fst snd frames flat_map].
    change (cursor (set_status (str "no more matches") (frame h st)))
      with (cursor (frame h st)).
    change (services (set_status (str "no more matches") (frame h st)))
      with (services (frame h st)).
    rewrite Fc, Fs. repeat split. exact Hs.
  - cbn [head].
    assert (Hi : c + 1 <= i < len svcs).
    { apply (after_In (lower q) svcs (c + 1) i). rewrite E. now left. }
    pose proof (after_tail _ _ _ _ _ E) as Hrest.
    destruct (IH (set_cursor i (frame h st)) i) as (st' & R & C & L' & M & S');
      [simpl; now rewrite Fq | simpl; now rewrite Fs | reflexivity | lia
      | rewrite <- Hrest; simpl in Hlen; lia |].
    fold (presses Key_n hs).
    destruct (main_loop_from (presses Key_n hs) (set_cursor i (frame h st)))
      as [log r] eqn:Em.
    simpl in R, C. subst r. exists st'. unfold cursors in *. simpl.
    rewrite C, Fc, L', <- Hrest. repeat split; try assumption.
    destruct rest as [|j rest']; [reflexivity |].
    destruct (proj2 (last_is_Some (j :: rest'))) as [x Hx]; [discriminate |].
    now rewrite last_cons_cons, Hx.
Qed.

(** Two presses of [n] on the view of both units under the query "s":
    the frames show the cursor on 0, then on 1, and the second press
    finds no further match. *)
Example both_match_presses :
  cursors (log_of (main_loop_from (presses Key_n [24; 24]) both_match))
  = [0; 1]
  /\ result_of (main_loop_from (presses Key_n [24; 24]) both_match)
     = Ok (Continue (set_status (str "no more matches")
                       (set_cursor 1 both_match))).
Proof. split; reflexivity. Qed.

(** C4. The Match Navigator over a list [svcs] with the query [q]:
    [next] from the last matching index finds no match, [previous] from
    the first matching index finds no match; a press of [n] or [N] puts
    the cursor on the match that its scan finds, and when the scan finds
    none it changes the status message and nothing else, the cursor
    included; and presses of [n] in the loop, with the cursor on index 0,
    put it on the matching indices after 0 in ascending order, each once,
    until a press finds no match and reports it, so that with index 0
    itself the frames show all the matching indices whenever index 0
    matches, as every index does in a filtered view under its own
    query. *)
Theorem match_navigator (q : pystr) (svcs : list service) :
  (forall c, last (matching_indices (lower q) svcs) = Some c ->
             next_match q svcs c = Ok None)
  /\ (forall c, head (matching_indices (lower q) svcs) = Some c ->
                previous_match q svcs c = Ok None)
  /\ (forall h st,
        filter_q st = Some q -> services st = svcs -> q <> [] -> svcs <> [] ->
        (next_match q svcs (cursor st) = Ok None ->
         handle h Key_n st
         = ret (Continue (set_status (str "no more matches") st)))
        /\ (previous_match q svcs (cursor st) = Ok None ->
            handle h Key_N st
            = ret (Continue (set_status (str "no previous match") st)))
        /\ (forall i, next_match q svcs (cursor st) = Ok (Some i) ->
                      handle h Key_n st = ret (Continue (set_cursor i st)))
        /\ (forall i, previous_match q svcs (cursor st) = Ok (Some i) ->
                      handle h Key_N st = ret (Continue (set_cursor i st))))
  /\ next_visits (length svcs) q svcs 0
     = List.filter (fun i => 0 <? i) (matching_indices (lower q) svcs)
  /\ (matches_at (lower q) svcs 0 = true ->
      0 :: next_visits (length svcs) q svcs 0
      = matching_indices (lower q) svcs)
  /\ next_match q svcs (default 0 (last (next_visits (length svcs) q svcs 0)))
     = Ok None
  /\ (forall L, truthy (Some q) = true -> svcs = apply_filter L (Some q) ->
                svcs <> [] ->
                0 :: next_visits (length svcs) q svcs 0
                = range_up 0 (len svcs)
                /\ matching_indices (lower q) svcs = range_up 0 (len svcs))
  /\ (forall hs st,
        filter_q st = Some q -> services st = svcs -> q <> [] -> svcs <> [] ->
        cursor st = 0 ->
        length hs = S (length (next_visits (length svcs) q svcs 0)) ->
        exists st',
          result_of (main_loop_from (presses Key_n hs) st) = Ok (Continue st')
          /\ cursors (log_of (main_loop_from (presses Key_n hs) st))
             = 0 :: next_visits (length svcs) q svcs 0
          /\ cursor st'
             = default 0 (last (next_visits (length svcs) q svcs 0))
          /\ status_msg st' = str "no more matches").
Proof.
  change (matching_indices (lower q) svcs) with (after (lower q) svcs 0).
  rewrite visits_from_zero.
  split; [exact (next_from_last q svcs) |].
  split; [exact (previous_from_first q svcs) |].
  split; [| split; [| split; [| split; [| split]]]].
  - intros h st Hq Hs Hqne Hsne.
    destruct (handle_match_keys h st q Hq Hqne) as [Hn Hp];
      [now rewrite Hs |]. rewrite Hs in Hn, Hp.
    repeat split.
    + intros E. exact (Hn None E).
    + intros E. exact (Hp None E).
    + intros i E. exact (Hn (Some i) E).
    + intros i E. exact (Hp (Some i) E).
  - destruct svcs as [|s0 svcs'].
    + now destruct (after_nil_list (lower q) 0) as [-> | ?];
        destruct (after_nil_list (lower q) 1) as [-> | ?]; try lia.
    + rewrite after_zero_pos by discriminate. rewrite List.filter_app.
      destruct (matches_at _ _ 0); simpl;
        (rewrite filter_all_true; [reflexivity |]);
        intros i Hi; apply after_In in Hi;
        destruct (Z.ltb_spec 0 i); [reflexivity | lia | reflexivity | lia].
  - intros H0. destruct svcs as [|s0 svcs'].
    + now rewrite matches_at_nil in H0.
    + rewrite after_zero_pos by discriminate. now rewrite H0.
  - destruct (last (after (lower q) svcs 1)) as [c|] eqn:E; simpl.
    + pose proof E as E'.
      apply last_Some_elem_of, list_elem_of_In, after_In in E'.
      rewrite next_match_after by lia. now rewrite (after_last _ _ _ _ E).
    + apply last_None in E. rewrite next_match_after by lia.
      change (0 + 1) with 1. now rewrite E.
  - intros L Hq -> Hne. destruct q as [|c0 q0]; [discriminate |].
    assert (Hall : forall a, 0 <= a ->
              after (lower (c0 :: q0)) (apply_filter L (Some (c0 :: q0))) a
              = range_up a (len (apply_filter L (Some (c0 :: q0))))).
    { intros a Ha. apply filter_all_true. intros i Hi.
      apply range_up_In in Hi. apply filtered_view_all_match. lia. }
    rewrite !Hall by lia. split; [| reflexivity].
    apply len_pos in Hne. now rewrite (range_up_cons 0) by lia.
  - intros hs st Hq Hs Hqne Hsne Hc Hlen.
    apply len_pos in Hsne.
    destruct (n_presses_visit q svcs hs Hqne st 0 Hq Hs Hc ltac:(lia) Hlen)
      as (st' & R & C & L' & M & _).
    exists st'. repeat split; assumption.
Qed.

End Navigator.
(** ** Mark Store *)

Section Marks.

Lemma remove_first_In (u x : pystr) (l : list pystr) :
  In x (remove_first u l) -> In x l.
Proof.
  induction l as [|y l IH]; simpl; [tauto |].
  destruct (pystr_eqb u y); [now right |].
  intros [-> | H]; [now left | right; now apply IH].
Qed.

Lemma remove_first_other (u x : pystr) (l : list pystr) :
  x <> u -> In x l -> In x (remove_first u l).
Proof.
  intros Hne. induction l as [|y l IH]; simpl; [tauto |].
  destruct (pystr_eqb u y) eqn:E.
  - apply pystr_eqb_eq in E. subst y. intros [-> | H]; [congruence | exact H].
  - intros [-> | H]; [now left | right; now apply IH].
Qed.

Lemma remove_first_NoDup (u : pystr) (l : list pystr) :
  List.NoDup l -> List.NoDup (remove_first u l) /\ ~ In u (remove_first u l).
Proof.
  induction 1 as [|y l Hy Hl [IH1 IH2]]; simpl.
  - split; [constructor | tauto].
  - destruct (pystr_eqb u y) eqn:E.
    + apply pystr_eqb_eq in E. subst y. now split.
    + assert (u <> y).
      { intros ->. rewrite pystr_eqb_refl in E. discriminate. }
      split.
      * constructor; [| exact IH1]. intros H'. apply Hy.
        now apply remove_first_In in H'.
      * intros [-> | H']; [congruence | now apply IH2].
Qed.

Lemma remove_first_appended (u : pystr) (l : list pystr) :
  ~ In u l -> remove_first u (l ++ [u]) = l.
Proof.
  induction l as [|y l IH]; simpl; intros H.
  - now rewrite pystr_eqb_refl.
  - destruct (pystr_eqb u y) eqn:E.
    + apply pystr_eqb_eq in E. subst y. tauto.
    + f_equal. apply IH. tauto.
Qed.

Lemma mem_false (x : pystr) (l : list pystr) : mem x l = false <-> ~ In x l.
Proof.
  rewrite <- mem_In. destruct (mem x l); split; congruence.
Qed.

(** The mark list stays free of duplicates under the key [m]. *)
Lemma toggle_mark_NoDup (u : pystr) (l : list pystr) :
  List.NoDup l -> List.NoDup (toggle_mark u l).
Proof.
  intros H. unfold toggle_mark. destruct (mem u l) eqn:E.
  - now apply remove_first_NoDup.
  - apply mem_false in E. apply List.NoDup_app.
    + exact H.
    + repeat constructor. intros [].
    + intros a Ha [<- | []]. tauto.
Qed.

Lemma toggle_mark_twice (u : pystr) (l : list pystr) :
  List.NoDup l ->
  forall x, In x (toggle_mark u (toggle_mark u l)) <-> In x l.
Proof.
  intros H x. unfold toggle_mark at 2. destruct (mem u l) eqn:E.
  - destruct (remove_first_NoDup u l H) as [_ Hout].
    unfold toggle_mark. apply mem_false in Hout. rewrite Hout.
    apply mem_In in E. rewrite in_app_iff. simpl. split.
    + intros [Hx | [<- | []]]; [now apply remove_first_In in Hx | exact E].
    + intros Hx. destruct (List.list_eq_dec ascii_dec x u) as [-> | Hne];
        [right; now left | left; now apply remove_first_other].
  - unfold toggle_mark.
    assert (Hin : mem u (l ++ [u]) = true).
    { apply mem_In, in_app_iff. right. now left. }
    rewrite Hin. apply mem_false in E. now rewrite remove_first_appended.
Qed.

(** The key [m] on a selected unit: the mark list is toggled and saved,
    the view is kept. *)
Lemma handle_mark_key (h : Z) (w : write_outcome) (st : state) (svc : service) :
  py_index (services st) (cursor st) = Ok svc ->
  exists st',
    handle h (Key_m w) st = ret (Continue st')
    /\ marks st' = toggle_mark (svc_unit svc) (marks st)
    /\ marks_file st' = save_marks (marks st') w
    /\ services st' = services st /\ cursor st' = cursor st.
Proof.
  intros Hsel. unfold handle.
  destruct (services st) as [|s0 l] eqn:E;
    [rewrite py_index_nil in Hsel; discriminate |].
  rewrite Hsel. cbn [lift bind ret]. unfold toggle_mark.
  eexists. split; [reflexivity |].
  destruct (mem (svc_unit svc) (marks st)); simpl; repeat split;
    now rewrite E.
Qed.

(** What the key [m] keeps of the claim C7, on a mark list that holds no
    identifier twice: toggling the mark of an identifier twice gives back
    a list with the members of the first; and each press of [m] on a
    selected unit saves the new list in the same step, before the loop
    reads its next key: the file holds the new list when the write
    succeeds. *)
Theorem mark_toggle_involution (unit : pystr) (marks0 : list pystr) :
  List.NoDup marks0 ->
  (forall x, In x (toggle_mark unit (toggle_mark unit marks0)) <-> In x marks0)
  /\ List.NoDup (toggle_mark unit marks0)
  /\ (forall h w st svc,
        marks st = marks0 ->
        py_index (services st) (cursor st) = Ok svc ->
        svc_unit svc = unit ->
        exists st',
          handle h (Key_m w) st = ret (Continue st')
          /\ marks st' = toggle_mark unit marks0
          /\ marks_file st' = save_marks (marks st') w
          /\ (w = Written -> load_marks (marks_file st') = marks st')
          /\ services st' = services st /\ cursor st' = cursor st).
Proof.
  intros Hnd. split; [now apply toggle_mark_twice |].
  split; [now apply toggle_mark_NoDup |].
  intros h w st svc Hm Hsel Hu.
  destruct (handle_mark_key h w st svc Hsel) as (st' & H1 & H2 & H3 & H4 & H5).
  exists st'. rewrite Hu, Hm in H2. repeat split; try assumption.
  intros ->. now rewrite H3.
Qed.

Lemma frame_selects (h : Z) (st : state) :
  services st <> [] ->
  0 <= cursor (frame h st) < len (services st)
  /\ exists svc, py_index (services (frame h st)) (cursor (frame h st)) = Ok svc.
Proof.
  intros Hne. destruct (frame_fields h st) as [Hs _].
  assert (Hc : 0 <= cursor (frame h st) < len (services st)).
  { unfold frame. destruct (scroll_fields (max_lines h) (clamp_cursor st))
      as [_ ->]. now apply clamp_cursor_range. }
  split; [exact Hc |]. rewrite Hs.
  destruct (py_index_in_range (services st) _ Hc) as (svc & H & _). eauto.
Qed.

(** Two presses of [m] in a row, in the loop: the cursor rests on the same
    unit for both, and the mark list has its first members again. *)
Lemma mark_twice_in_loop (h1 h2 : Z) (w1 w2 : write_outcome) (st : state) :
  services st <> [] -> List.NoDup (marks st) ->
  exists st',
    result_of (main_loop_from [(h1, Key_m w1); (h2, Key_m w2)] st)
    = Ok (Continue st')
    /\ (forall x, In x (marks st') <-> In x (marks st))
    /\ marks_file st' = save_marks (marks st') w2.
Proof.
  intros Hne Hnd.
  destruct (frame_selects h1 st Hne) as (Hc1 & svc & Hsel1).
  destruct (frame_fields h1 st) as [Hs1 Hm1].
  destruct (handle_mark_key h1 w1 _ svc Hsel1)
    as (st1 & E1 & M1 & _ & S1 & C1).
  assert (Hc2 : cursor (frame h2 st1) = cursor st1).
  { apply frame_cursor_stable. rewrite S1, C1, Hs1. exact Hc1. }
  destruct (frame_fields h2 st1) as [Hs2 Hm2].
  assert (Hsel2 : py_index (services (frame h2 st1)) (cursor (frame h2 st1))
                  = Ok svc) by (now rewrite Hs2, Hc2, S1, C1).
  destruct (handle_mark_key h2 w2 _ svc Hsel2)
    as (st2 & E2 & M2 & F2 & _ & _).
  exists st2. cbn [main_loop_from]. unfold iteration. rewrite E1.
  cbn [bind emit ret app result_of snd]. rewrite E2. cbn.
  split; [reflexivity |]. split; [| exact F2].
  intros x. rewrite M2, Hm2, M1, Hm1. now apply toggle_mark_twice.
Qed.

(** C7. The toggle is not its own inverse on a mark file that holds an
    identifier twice, which [load_marks] takes as it is: the first press
    of [m] on nginx.service removes one occurrence only, so the status
    says "unmarked nginx.service" while the unit is still in the mark
    list; and after the second press the unit is unmarked though it was
    marked before the two presses.  Each press does save the list of the
    moment. *)
Theorem mark_toggle_repeated_identifier :
  initial (Json_list repeated_marks) [nginx; sshd] = marked_twice
  /\ mem (str "nginx.service") (marks marked_twice) = true
  /\ (exists st1,
        handle 24 (Key_m Written) marked_twice = ret (Continue st1)
        /\ status_msg st1 = str "unmarked nginx.service"
        /\ marks st1 = [str "sshd.service"; str "nginx.service"]
        /\ mem (str "nginx.service") (marks st1) = true
        /\ marks_file st1 = Json_list (marks st1))
  /\ (exists st2,
        result_of (main_loop_from (presses (Key_m Written) [24; 24])
                     marked_twice) = Ok (Continue st2)
        /\ marks st2 = [str "sshd.service"]
        /\ mem (str "nginx.service") (marks st2) = false)
  /\ ~ (forall x,
          In x (toggle_mark (str "nginx.service")
                  (toggle_mark (str "nginx.service") repeated_marks))
          <-> In x repeated_marks).
Proof.
  split; [reflexivity |]. split; [reflexivity |].
  split; [eexists; repeat split |].
  split; [eexists; repeat split |].
  intros H. specialize (H (str "nginx.service")).
  assert (Hin : In (str "nginx.service") repeated_marks) by now left.
  apply H in Hin. vm_compute in Hin.
  destruct Hin as [Hin | []]. discriminate Hin.
Qed.

(** In general: [remove] takes the first occurrence only. *)
Remark remove_first_repeated (u : pystr) :
  toggle_mark u [u; u] = [u] /\ toggle_mark u [u] = [].
Proof. unfold toggle_mark, mem. simpl. now rewrite pystr_eqb_refl. Qed.

End Marks.
(** ** Refresh *)

Section Refresh.

(** C3, as the code has it. When the directory query of a refresh runs to
    its end, with whatever exit status, the controller goes on without
    exception, the status message is "refreshed", the Service List is
    what the output of the query parses to and the Filtered View is the
    filter of that list under the unchanged Active Query: the view of
    before is replaced, by the empty view when the query printed
    nothing. *)
Theorem refresh_replaces_view (h : Z) (st : state) (rc : Z) (out err : pystr) :
  exists all,
    fetch_services (Completed rc out err) = Ok all
    /\ handle h (Key_r (Completed rc out err)) st
       = ([Draw h (set_status (str "refreshing...") st); Exec list_units_cmd],
          Ok (Continue
                (set_status (str "refreshed")
                   (set_services (apply_filter all (filter_q st))
                      (set_all_services all
                         (set_status (str "refreshing...") st))))))
    /\ (out = [] -> all = [] /\ apply_filter all (filter_q st) = []).
Proof.
  destruct (fetch_services_total rc out err) as [all Hall].
  exists all. split; [exact Hall |]. split.
  - unfold handle, refetch. rewrite Hall. reflexivity.
  - intros ->. simpl in Hall. injection Hall as <-.
    split; [reflexivity |]. now destruct (filter_q st) as [[|c q]|].
Qed.

(** The view of two units is lost when the refresh finds the service
    manager unreachable; so the refresh does not keep the view of before. *)
Lemma refresh_failure_loses_view :
  gateway_failed bus_down
  /\ (exists st',
        result_of (handle 24 (Key_r bus_down) browsing) = Ok (Continue st')
        /\ services st' = []
        /\ status_msg st' = str "refreshed")
  /\ services browsing = [nginx; sshd]
  /\ ~ refresh_failure_keeps_view.
Proof.
  split; [simpl; lia |]. split; [eexists; repeat split |].
  split; [reflexivity |].
  intros H. destruct (H 24 browsing bus_down) as (st' & E & V); [simpl; lia |].
  vm_compute in E. injection E as <-. discriminate V.
Qed.

(** A directory query that cannot be started is not caught: the
    exception leaves [main_loop]. *)
Lemma refresh_launch_failure_raises (h : Z) (st : state) (msg : pystr) :
  handle h (Key_r (Launch_failed msg)) st
  = ([Draw h (set_status (str "refreshing...") st); Exec list_units_cmd],
     Raise (OSError msg)).
Proof. reflexivity. Qed.

End Refresh.

(** ** The model on the example data *)

Section Examples.

Example split_four_fields :
  split 4 (str "a b c d   ") = [str "a"; str "b"; str "c"; str "d"].
Proof. reflexivity. Qed.

Example split_keeps_tail :
  split 4 (str " a b c d  e f  ")
  = [str "a"; str "b"; str "c"; str "d"; str "e f  "].
Proof. reflexivity. Qed.

Example splitlines_crlf :
  splitlines (str "a" ++ [ascii_of_N 13; newline] ++ str "b"
              ++ [newline; newline] ++ str "c" ++ [newline])
  = [str "a"; str "b"; []; str "c"].
Proof. reflexivity. Qed.

Example lower_mixed : lower (str "SSHd.Service") = str "sshd.service".
Proof. reflexivity. Qed.

Example strip_both_ends :
  strip (str "  Access denied " ++ [newline]) = str "Access denied".
Proof. reflexivity. Qed.

Example fetch_listing : fetch_services listing = Ok [nginx; sshd].
Proof. reflexivity. Qed.

(** Scenario B: the query "ssh" over the two units. *)
Example search_ssh :
  handle 24 (Key_slash (Some (str "ssh"))) browsing = ret (Continue searching).
Proof. reflexivity. Qed.

Example next_in_view :
  next_match (str "s") [nginx; sshd] 0 = Ok (Some 1)
  /\ next_match (str "s") [nginx; sshd] 1 = Ok None
  /\ previous_match (str "s") [nginx; sshd] 1 = Ok (Some 0)
  /\ previous_match (str "s") [nginx; sshd] 0 = Ok None
  /\ next_visits 2 (str "s") [nginx; sshd] 0 = [1]
  /\ matching_indices (str "s") [nginx; sshd] = [0; 1].
Proof. repeat split. Qed.

(** The first frame of a session over the listing: two units, cursor and
    offset 0. *)
Example first_frame :
  frames (log_of (main_loop Written Missing listing [(24, Key_other)]))
  = [(24, browsing)].
Proof. reflexivity. Qed.

End Examples.

(** ** Instances of the theorems with hypotheses *)

Section Witnesses.

Lemma scenario_a_witness :
  len (services fifty_units) = 50 /\ max_lines 13 = 10
  /\ cursor fifty_units = 0 /\ offset fifty_units = 0
  /\ exists st',
       result_of (main_loop_from (repeat (13, KEY_DOWN) 12) fifty_units)
       = Ok (Continue st')
       /\ map view (frames (log_of (main_loop_from (repeat (13, KEY_DOWN) 12)
                                      fifty_units)))
          = [(0, 0); (1, 0); (2, 0); (3, 0); (4, 0); (5, 0); (6, 0); (7, 0);
             (8, 0); (9, 0); (10, 1); (11, 2)]
       /\ view (13, frame 13 st') = (12, 3).
Proof.
  split; [reflexivity |]. split; [reflexivity |].
  split; [reflexivity |]. split; [reflexivity |].
  apply (scenario_a_twelve_down 13 fifty_units); reflexivity.
Defined.

Lemma match_keys_noop_witness :
  (filter_q browsing = None \/ services browsing = [])
  /\ handle 24 Key_n browsing = ret (Continue browsing)
  /\ handle 24 Key_N browsing = ret (Continue browsing).
Proof.
  split; [left; reflexivity |].
  apply (match_keys_noop 24 browsing). left. reflexivity.
Defined.

Lemma nodup_one (u : pystr) : List.NoDup [u].
Proof. constructor; [intros [] | constructor]. Defined.

Lemma mark_toggle_witness :
  List.NoDup [str "nginx.service"]
  /\ (forall x,
        In x (toggle_mark (str "sshd.service")
                (toggle_mark (str "sshd.service") [str "nginx.service"]))
        <-> In x [str "nginx.service"])
  /\ toggle_mark (str "sshd.service") [str "nginx.service"]
     = [str "nginx.service"; str "sshd.service"].
Proof.
  split; [apply nodup_one |]. split; [| reflexivity].
  apply (mark_toggle_involution (str "sshd.service") [str "nginx.service"]).
  apply nodup_one.
Defined.

(** Scenario C: stopping nginx.service is refused with "Access denied". *)
Lemma scenario_c_witness :
  py_index (services browsing) (cursor browsing) = Ok nginx
  /\ run_action access_denied = (false, str "Access denied")
  /\ handle 24 (Key_s true access_denied listing) browsing
     = ([Exec (action_cmd (str "stop") (str "nginx.service"));
         Exec list_units_cmd],
        Ok (Continue (State [] [nginx; sshd] None [nginx; sshd] 0 0
                        (str "error: Access denied") (Json_list [])))).
Proof.
  split; [reflexivity |]. split; [reflexivity |].
  exact (proj1 (action_failure_reported 24 browsing nginx access_denied
                  listing (str "Access denied") eq_refl eq_refl)).
Defined.

End Witnesses.
(** ** Invariants of a session *)

Section SessionInvariants.

Variable D : Z * state -> Prop.

Lemma sat_lift_eq {A} (r : result A) : sat D (fun a => r = Ok a) (lift r).
Proof. apply sat_lift. auto. Qed.

Lemma sat_exec_true (cmd : list pystr) : sat D (fun _ => True) (emit (Exec cmd)).
Proof. now apply sat_exec. Qed.

Lemma sat_draw_true (h : Z) (st : state) :
  D (h, st) -> sat D (fun _ => True) (emit (Draw h st)).
Proof. intros H. now apply sat_draw. Qed.

Lemma sat_refetch_eq (fetch : proc) (st : state) :
  sat D (fun st' => exists all,
           st' = set_services (apply_filter all (filter_q st))
                   (set_all_services all st))
      (refetch fetch st).
Proof.
  unfold refetch.
  eapply sat_bind; [apply sat_exec_true |]. intros _ _.
  eapply sat_bind; [apply sat_lift_eq |]. intros all _.
  apply sat_ret. now exists all.
Qed.

Lemma sat_confirmed_action_eq (ok : bool) (name done unit : pystr)
    (action : proc) (st : state) :
  sat D (fun st' => st' = st \/ exists msg, st' = set_status msg st)
      (confirmed_action ok name done unit action st).
Proof.
  unfold confirmed_action. destruct ok; [| apply sat_ret; now left].
  eapply sat_bind; [apply sat_exec_true |]. intros _ _.
  destruct (run_action action) as [ok2 out]. apply sat_ret. right. eauto.
Qed.

End SessionInvariants.

(** One step of the reading of a handler: the first action of the
    computation is taken off, with what is known of its value. *)
Ltac sat_step :=
  lazymatch goal with
  | |- sat _ _ (ret _) => apply sat_ret
  | |- sat _ _ (raise _) => apply sat_raise
  | |- sat _ _ (bind (emit (Exec _)) _) =>
      eapply sat_bind; [apply sat_exec_true | intros _ _]
  | |- sat _ _ (bind (emit (Draw _ _)) _) =>
      eapply sat_bind; [apply sat_draw_true | intros _ _]
  | |- sat _ _ (bind (lift _) _) =>
      eapply sat_bind; [apply sat_lift_eq | intros ? ?]
  | |- sat _ _ (bind (refetch _ _) _) =>
      eapply sat_bind; [apply sat_refetch_eq | intros ? [? ->]]
  | |- sat _ _ (bind (confirmed_action _ _ _ _ _ _) _) =>
      eapply sat_bind;
      [apply sat_confirmed_action_eq | intros ? [-> | [? ->]]]
  | |- sat _ _ (bind (if ?b then _ else _) _) => destruct b
  | |- sat _ _ (match ?x with _ => _ end) => destruct x eqn:?
  end.

(** Case analysis on a variable or a membership test that the goal
    branches on. *)
Ltac case_var :=
  match goal with
  | |- context [if mem ?a ?b then _ else _] => destruct (mem a b)
  | |- context [match ?o with Some _ => _ | None => _ end] =>
      is_var o; destruct o
  | |- context [match ?l with [] => _ | _ :: _ => _ end] =>
      is_var l; destruct l
  end.

Section Invariants.

(** A property of the state that the head of the loop and every key
    handler keep holds of every frame drawn and of the state at the end,
    for the keys [K] that the handlers keep it for. *)
Lemma main_loop_from_invariant (I : state -> Prop) (K : key -> Prop) :
  (forall h st, I st -> I (frame h st)) ->
  (forall h k st, K k -> I st ->
     sat (fun d => I (snd d)) (fun c => I (state_of c)) (handle h k st)) ->
  forall evs st,
    Forall (fun e => K (snd e)) evs -> I st ->
    sat (fun d => I (snd d)) (fun c => I (state_of c)) (main_loop_from evs st).
Proof.
  intros Hframe Hhandle evs.
  induction evs as [|[h k] evs IH]; intros st HK HI; simpl.
  - now apply sat_ret.
  - inversion HK as [|? ? Hk HK']; subst. simpl in Hk.
    eapply sat_bind with (P := fun c => I (state_of c)).
    + unfold iteration. eapply sat_bind; [apply sat_draw_true; now apply Hframe |].
      intros _ _. apply Hhandle; [exact Hk | now apply Hframe].
    + intros [st' | st'] H'; [now apply IH | now apply sat_ret].
Qed.

Lemma handle_keeps_view_fresh (h : Z) (k : key) (st : state) :
  view_fresh st ->
  sat (fun d => view_fresh (snd d)) (fun c => view_fresh (state_of c))
      (handle h k st).
Proof.
  intros [Hs Hq]. unfold handle.
  destruct k; repeat sat_step; unfold view_fresh;
    repeat case_var; simpl; split; congruence.
Qed.

(** X1. At every frame drawn in a session, and in the state at its end,
    the filtered view is the filter of the current full list under the
    current query: no key leaves a stale view; and the active query is
    never the empty string. *)
Theorem view_never_stale (w0 : write_outcome) (file : file_content)
    (fetch0 : proc) (evs : list (Z * key)) :
  Forall (fun d => view_fresh (snd d))
         (frames (log_of (main_loop w0 file fetch0 evs)))
  /\ forall c, result_of (main_loop w0 file fetch0 evs) = Ok c ->
               view_fresh (state_of c).
Proof.
  change (sat (fun d => view_fresh (snd d)) (fun c => view_fresh (state_of c))
            (main_loop w0 file fetch0 evs)).
  unfold main_loop. repeat sat_step.
  apply (main_loop_from_invariant view_fresh (fun _ => True)).
  - intros h st [Hs Hq]. destruct (frame_other_fields h st) as (E1 & E2 & E3 & _).
    unfold view_fresh. rewrite E1, E2, E3. now split.
  - intros h k st _. apply handle_keeps_view_fresh.
  - apply Forall_forall. intros; exact I.
  - split; [reflexivity | discriminate].
Qed.

(** X2. At every frame drawn in a session with a unit in the view, the
    cursor is the index of a unit of the view: [services[cursor]] is
    defined and is what the selection keys act on. *)
Theorem selection_always_valid (w0 : write_outcome) (file : file_content)
    (fetch0 : proc) (evs : list (Z * key)) :
  Forall (fun d => selection_valid (snd d))
         (frames (log_of (main_loop w0 file fetch0 evs))).
Proof.
  assert (H : sat (fun d => viewport_ok (max_lines (fst d)) (snd d))
                  (fun _ => True) (main_loop w0 file fetch0 evs)).
  { unfold main_loop. repeat sat_step. apply sat_main_loop_from. simpl. lia. }
  destruct H as [H _]. eapply Forall_impl; [exact H |].
  intros [h st] [H1 _] Hne. simpl in *.
  destruct (H1 Hne) as (? & ? & ? & ?).
  assert (Hc : 0 <= cursor st < len (services st)) by lia.
  split; [exact Hc |].
  destruct (py_index_in_range (services st) _ Hc) as (svc & Hs & _). eauto.
Qed.

(** [ensure_config] does not change what [load_marks] reads. *)
Lemma ensure_config_load (w : write_outcome) (file f : file_content) :
  ensure_config w file = Ok f -> load_marks f = load_marks file.
Proof.
  destruct file; simpl; [destruct w; [| discriminate] | |];
    now intros [= <-].
Qed.

Lemma handle_keeps_marks_nodup (h : Z) (k : key) (st : state) :
  List.NoDup (marks st) ->
  sat (fun d => List.NoDup (marks (snd d)))
      (fun c => List.NoDup (marks (state_of c))) (handle h k st).
Proof.
  intros Hnd. unfold handle.
  destruct k; repeat sat_step; try (repeat case_var; simpl; assumption).
  simpl. pose proof (toggle_mark_NoDup (svc_unit a) (marks st) Hnd) as Ht.
  unfold toggle_mark in Ht. now destruct (mem (svc_unit a) (marks st)).
Qed.

(** X5. When the mark file read at the start holds no identifier twice,
    the mark list holds none twice at any frame of the session nor at its
    end: the key [m] keeps the list a set. *)
Theorem marks_stay_duplicate_free (w0 : write_outcome) (file : file_content)
    (fetch0 : proc) (evs : list (Z * key)) :
  List.NoDup (load_marks file) ->
  Forall (fun d => List.NoDup (marks (snd d)))
         (frames (log_of (main_loop w0 file fetch0 evs)))
  /\ forall c, result_of (main_loop w0 file fetch0 evs) = Ok c ->
               List.NoDup (marks (state_of c)).
Proof.
  intros Hnd.
  change (sat (fun d => List.NoDup (marks (snd d)))
              (fun c => List.NoDup (marks (state_of c)))
              (main_loop w0 file fetch0 evs)).
  unfold main_loop. repeat sat_step.
  apply (main_loop_from_invariant (fun st => List.NoDup (marks st))
           (fun _ => True)).
  - intros h st Hst.
    destruct (frame_other_fields h st) as (_ & _ & _ & E & _). now rewrite E.
  - intros h k st _. apply handle_keeps_marks_nodup.
  - apply Forall_forall. intros; exact I.
  - cbv beta in *. simpl. erewrite ensure_config_load by eassumption.
    exact Hnd.
Qed.

Lemma handle_keeps_write_through (h : Z) (k : key) (st : state) :
  writes k ->
  load_marks (marks_file st) = marks st ->
  sat (fun d => load_marks (marks_file (snd d)) = marks (snd d))
      (fun c => load_marks (marks_file (state_of c)) = marks (state_of c))
      (handle h k st).
Proof.
  intros Hw Hm. unfold handle.
  destruct k; repeat sat_step; try (repeat case_var; simpl; assumption).
  - destruct w; [reflexivity | destruct Hw].
  - destruct w; [| destruct Hw]. simpl. now destruct (mem _ _).
Qed.

(** X4. In a session whose writes of the mark file all succeed, the file
    and the mark list in memory agree at every frame and at the end:
    reading the file back gives the list, so a mark is on disk before the
    next key is read and at exit. *)
Theorem marks_written_through (w0 : write_outcome) (file : file_content)
    (fetch0 : proc) (evs : list (Z * key)) :
  Forall (fun e => writes (snd e)) evs ->
  Forall (fun d => load_marks (marks_file (snd d)) = marks (snd d))
         (frames (log_of (main_loop w0 file fetch0 evs)))
  /\ forall c, result_of (main_loop w0 file fetch0 evs) = Ok c ->
               load_marks (marks_file (state_of c)) = marks (state_of c).
Proof.
  intros Hw.
  change (sat (fun d => load_marks (marks_file (snd d)) = marks (snd d))
              (fun c => load_marks (marks_file (state_of c))
                        = marks (state_of c))
              (main_loop w0 file fetch0 evs)).
  unfold main_loop. repeat sat_step.
  apply (main_loop_from_invariant
           (fun st => load_marks (marks_file st) = marks st) writes).
  - intros h st Hst.
    destruct (frame_other_fields h st) as (_ & _ & _ & E1 & E2 & _).
    now rewrite E1, E2.
  - intros h k st. apply handle_keeps_write_through.
  - exact Hw.
  - reflexivity.
Qed.

End Invariants.
(** ** The index scans stay inside the view *)

Section Scans.

Lemma next_match_total (q : pystr) (svcs : list service) (c : Z) :
  -1 <= c -> exists r, next_match q svcs c = Ok r.
Proof. intros H. rewrite next_match_after by exact H. eauto. Qed.

Lemma previous_match_total (q : pystr) (svcs : list service) (c : Z) :
  c <= len svcs -> exists r, previous_match q svcs c = Ok r.
Proof.
  intros H. unfold previous_match. rewrite first_match_head; [eauto |].
  intros i Hi. apply range_down_In in Hi. lia.
Qed.

(** X3. At every frame drawn in a session, and for whatever query, the
    scans of the keys [n] and [N] from the cursor read only indices of
    the view: each of them ends with a match or with none, and the
    indexing [services[i]] in them raises no [IndexError]. *)
Theorem match_scans_stay_in_range (w0 : write_outcome) (file : file_content)
    (fetch0 : proc) (evs : list (Z * key)) :
  Forall (fun d =>
            forall q,
              (exists r, next_match q (services (snd d)) (cursor (snd d))
                         = Ok r)
              /\ (exists r, previous_match q (services (snd d))
                              (cursor (snd d)) = Ok r))
         (frames (log_of (main_loop w0 file fetch0 evs))).
Proof.
  assert (H : sat (fun d => viewport_ok (max_lines (fst d)) (snd d))
                  (fun _ => True) (main_loop w0 file fetch0 evs)).
  { unfold main_loop. repeat sat_step. apply sat_main_loop_from. simpl. lia. }
  destruct H as [H _]. eapply Forall_impl; [exact H |].
  intros [h st] [H1 H2] q. simpl in *.
  assert (Hc : 0 <= cursor st <= len (services st)).
  { destruct (services st) as [|s0 l] eqn:E.
    - rewrite (H2 eq_refl). unfold len. simpl. lia.
    - destruct H1 as (? & ? & ? & ?); [discriminate | lia]. }
  split; [apply next_match_total | apply previous_match_total]; lia.
Qed.

End Scans.
(** ** Moving in the view *)

Section Moving.

(** X7. Scrolling is minimal.  From a frame that satisfies the viewport
    invariant, moving the cursor to any unit [c] of the view and drawing
    again at the same height moves the window no further than the cursor
    moved, and not at all when [c] was already in the window. *)
Theorem scroll_is_minimal (h : Z) (st : state) (c : Z) :
  viewport_ok (max_lines h) st ->
  0 <= c < len (services st) ->
  cursor (frame h (set_cursor c st)) = c
  /\ Z.abs (offset (frame h (set_cursor c st)) - offset st)
     <= Z.abs (c - cursor st)
  /\ (offset st <= c < offset st + max_lines h ->
      offset (frame h (set_cursor c st)) = offset st).
Proof.
  intros [Hv _] Hc.
  assert (Hne : services st <> []).
  { intros E. rewrite E in Hc. unfold len in Hc. simpl in Hc. lia. }
  destruct (Hv Hne) as (H0 & H1 & H2 & H3).
  assert (Hm := max_lines_pos h).
  destruct st as [m a q l cu o s f]. simpl in *.
  unfold frame, clamp_cursor, scroll. simpl.
  repeat (case_cmp; simpl in *); repeat split; lia.
Qed.

Lemma clamp_cursor_value (st : state) :
  0 <= cursor st ->
  cursor (clamp_cursor st)
  = Z.min (cursor st) (Z.max 0 (len (services st) - 1)).
Proof.
  intros Hc. destruct st as [m a q l cu o s f]. simpl in *.
  unfold clamp_cursor. simpl.
  repeat (case_cmp; simpl in * ); lia.
Qed.

(** X8. A refresh keeps the cursor as a number: the handler leaves cursor
    and offset alone, and the next frame puts the cursor on the same
    index, or on the last unit when the new view is shorter. *)
Theorem refresh_keeps_cursor_index (h h' : Z) (st : state) (rc : Z)
    (out err : pystr) :
  0 <= cursor st ->
  exists st',
    result_of (handle h (Key_r (Completed rc out err)) st) = Ok (Continue st')
    /\ cursor st' = cursor st /\ offset st' = offset st
    /\ filter_q st' = filter_q st
    /\ cursor (frame h' st')
       = Z.min (cursor st) (Z.max 0 (len (services st') - 1)).
Proof.
  intros Hc. destruct (fetch_services_total rc out err) as [all Hall].
  unfold handle, refetch. rewrite Hall. cbn [bind emit lift ret result_of snd].
  eexists. split; [reflexivity |]. repeat split.
  set (st' := set_status _ _).
  unfold frame. destruct (scroll_fields (max_lines h') (clamp_cursor st'))
    as [_ ->].
  now rewrite clamp_cursor_value.
Qed.

(** In a view filtered by its own query, the matching indices from [a]
    on are all the indices from [a] on. *)
Lemma filtered_view_after (L : list service) (c : ascii) (q : pystr) (a : Z) :
  0 <= a ->
  after (lower (c :: q)) (apply_filter L (Some (c :: q))) a
  = range_up a (len (apply_filter L (Some (c :: q)))).
Proof.
  intros Ha. apply filter_all_true. intros i Hi.
  apply range_up_In in Hi. apply filtered_view_all_match. lia.
Qed.

Lemma range_down_cons (s : Z) : 0 <= s -> range_down s = s :: range_down (s - 1).
Proof.
  intros H. unfold range_down.
  replace (Z.to_nat (s + 1)) with (S (Z.to_nat (s - 1 + 1))) by lia.
  cbn [seq map]. f_equal; [lia |].
  rewrite <- seq_shift, map_map. apply map_ext. intros k. lia.
Qed.

(** X9. In a session the view holds only units that match the active
    query, so [n] and [N] step like the arrow keys: [n] moves the cursor
    down one row and reports "no more matches" on the last row, [N] moves
    it up one row and reports "no previous match" on the first. *)
Theorem match_keys_step_one_row (h : Z) (st : state) (c : ascii) (q : pystr) :
  view_fresh st ->
  filter_q st = Some (c :: q) ->
  0 <= cursor st < len (services st) ->
  handle h Key_n st
  = ret (Continue (if cursor st + 1 <? len (services st)
                   then set_cursor (cursor st + 1) st
                   else set_status (str "no more matches") st))
  /\ handle h Key_N st
     = ret (Continue (if 0 <? cursor st
                      then set_cursor (cursor st - 1) st
                      else set_status (str "no previous match") st)).
Proof.
  intros [Hs _] Hq Hc. unfold handle. rewrite Hq.
  destruct (services st) as [|s0 l] eqn:E.
  { unfold len in Hc. simpl in Hc. lia. }
  rewrite <- E in Hs, Hc |- *. clear E s0 l. rewrite Hq in Hs. split.
  - rewrite next_match_after by lia. rewrite Hs at 1 2.
    rewrite filtered_view_after by lia. rewrite <- Hs.
    destruct (Z.ltb_spec (cursor st + 1) (len (services st))).
    + now rewrite range_up_cons by lia.
    + now rewrite range_up_nil by lia.
  - unfold previous_match. rewrite first_match_head.
    + rewrite filter_all_true.
      * destruct (Z.ltb_spec 0 (cursor st)).
        -- now rewrite range_down_cons by lia.
        -- unfold range_down.
           now replace (Z.to_nat (cursor st - 1 + 1)) with 0%nat by lia.
      * intros i Hi. apply range_down_In in Hi.
        rewrite Hs. apply filtered_view_all_match. rewrite <- Hs. lia.
    + intros i Hi. apply range_down_In in Hi. lia.
Qed.

End Moving.
(** ** More on the Filter Engine *)

Section FilterMore.

(** X10. Filtering a view again by the query that made it changes
    nothing: [apply_filter] is idempotent in its list. *)
Theorem refilter_is_identity (L : list service) (q : option pystr) :
  apply_filter (apply_filter L q) q = apply_filter L q.
Proof.
  destruct q as [[|c q]|]; try reflexivity.
  rewrite !apply_filter_some.
  apply filter_all_true. intros s Hs. now apply filter_In in Hs.
Qed.

(** X11. The filter loses no unit: under a query that is not empty a unit
    is in the view exactly when it is in the full list and its identifier
    or its description, in lower case, contains the query in lower case. *)
Theorem apply_filter_keeps_every_match (L : list service) (c : ascii)
    (q : pystr) (s : service) :
  In s (apply_filter L (Some (c :: q)))
  <-> In s L
      /\ (substring_of (lower (c :: q)) (lower (svc_unit s))
          \/ substring_of (lower (c :: q)) (lower (svc_description s))).
Proof.
  rewrite apply_filter_some, filter_In. now rewrite svc_matches_spec.
Qed.

Lemma substring_of_trans (a b c : pystr) :
  substring_of a b -> substring_of b c -> substring_of a c.
Proof.
  intros (p1 & s1 & ->) (p2 & s2 & ->). exists (p2 ++ p1), (s1 ++ s2).
  now rewrite <- !app_assoc.
Qed.

Lemma sublist_filter_impl {A} (f g : A -> bool) (l : list A) :
  (forall x, f x = true -> g x = true) ->
  sublist (List.filter f l) (List.filter g l).
Proof.
  intros H. induction l as [|a l IH]; simpl; [constructor |].
  destruct (f a) eqn:E.
  - rewrite (H a E). now constructor.
  - destruct (g a); [now constructor | exact IH].
Qed.

(** X12. A query whose lower case holds the lower case of another query
    narrows the view of that one: when [lower q1] occurs inside
    [lower q2], the view of [q2] is a subsequence of the view of [q1].
    The filter uses a query through its lower case only, so nothing is
    assumed on what [lower] does to the characters. *)
Theorem longer_query_narrows (L : list service) (q1 q2 : pystr) :
  substring_of (lower q1) (lower q2) ->
  sublist (apply_filter L (Some q2)) (apply_filter L (Some q1)).
Proof.
  intros H. destruct q1 as [|c1 q1].
  - destruct q2 as [|c2 q2]; [reflexivity |].
    rewrite apply_filter_some. apply sublist_bool_filter.
  - destruct q2 as [|c2 q2].
    + destruct H as (p & s & E). destruct p; discriminate.
    + rewrite !apply_filter_some. apply sublist_filter_impl.
      intros x Hx. apply svc_matches_spec in Hx. apply svc_matches_spec.
      destruct Hx as [Hx | Hx]; [left | right];
        eapply substring_of_trans; eassumption.
Qed.

Lemma lower_char_idem (c : ascii) : lower_char (lower_char c) = lower_char c.
Proof. destruct c as [[] [] [] [] [] [] [] []]; reflexivity. Qed.

Lemma lower_idem (s : pystr) : lower (lower s) = lower s.
Proof.
  unfold lower. rewrite map_map. apply map_ext. intros c. apply lower_char_idem.
Qed.

Lemma lower_nil (s : pystr) : lower s = [] -> s = [].
Proof. now destruct s. Qed.

(** X13. The case of the query does not matter: two queries that are
    equal in lower case give the same view, and so does a query put to
    lower case. *)
Theorem query_case_is_ignored (L : list service) (q1 q2 : pystr) :
  lower q1 = lower q2 ->
  apply_filter L (Some q1) = apply_filter L (Some q2)
  /\ apply_filter L (Some (lower q1)) = apply_filter L (Some q1).
Proof.
  intros H. split.
  - destruct q1 as [|c1 q1], q2 as [|c2 q2]; try discriminate;
      [reflexivity |].
    rewrite !apply_filter_some. now rewrite H.
  - destruct q1 as [|c1 q1]; [reflexivity |].
    change (lower (c1 :: q1)) with (lower_char c1 :: lower q1) at 1.
    rewrite !apply_filter_some.
    change (lower_char c1 :: lower q1) with (lower (c1 :: q1)).
    now rewrite lower_idem.
Qed.

End FilterMore.
(** ** More on the unit listing *)

Section ListingMore.

(** Every part of a split starts with a character that is no
    whitespace. *)
Lemma split_parts_start (k : nat) (s : pystr) :
  Forall (fun p => exists c t, p = c :: t /\ isspace c = false) (split k s).
Proof.
  revert s. induction k as [|k IH]; intros s.
  - destruct (lstrip s) as [|c t] eqn:E.
    + rewrite split_lstrip_nil by exact E. constructor.
    + rewrite (split_zero s c t E). repeat constructor.
      exists c, t. split; [reflexivity | exact (lstrip_head _ _ _ E)].
  - destruct (lstrip s) as [|c t] eqn:E.
    + rewrite split_lstrip_nil by exact E. constructor.
    + destruct (word_break (c :: t)) as [w r] eqn:W.
      rewrite (split_step k s c t w r E W). constructor; [| apply IH].
      pose proof (lstrip_head _ _ _ E) as Hc.
      simpl in W. rewrite Hc in W. destruct (word_break t) as [w' r'].
      injection W as <- <-. exists c, w'. now split.
Qed.

(** Where the records of the loop come from. *)
Lemma fetch_loop_In (lines : list pystr) (acc res : list service)
    (svc : service) :
  fetch_loop lines acc = Ok res -> In svc res ->
  In svc acc
  \/ exists line,
       In line lines
       /\ split 4 line = [svc_unit svc; svc_load svc; svc_active svc;
                          svc_sub svc; svc_description svc].
Proof.
  revert acc. induction lines as [|line lines IH]; intros acc; cbn [fetch_loop].
  - intros [= <-] H. now left.
  - destruct (len (split 4 line) <? 5).
    + intros H Hin. destruct (IH acc H Hin) as [Ha | (l & Hl & E)];
        [now left | right; exists l; split; [now right | exact E]].
    + destruct (split 4 line) as [|u [|l [|a [|s [|d [|x r]]]]]] eqn:E;
        try discriminate. simpl.
      intros H Hin. destruct (IH _ H Hin) as [Ha | (l' & Hl & E')].
      * apply in_app_iff in Ha. destruct Ha as [Ha | [<- | []]];
          [now left |]. right. exists line. split; [now left | exact E].
      * right. exists l'. split; [now right | exact E'].
Qed.

(** X14. Every record that [fetch_services] returns is well formed: its
    identifier, load state, active state and sub state are not empty and
    hold no whitespace, and its description is not empty and starts with
    a character that is no whitespace. *)
Theorem fetched_records_well_formed (rc : Z) (out err : pystr)
    (all : list service) (svc : service) :
  fetch_services (Completed rc out err) = Ok all -> In svc all ->
  is_word (svc_unit svc) /\ is_word (svc_load svc)
  /\ is_word (svc_active svc) /\ is_word (svc_sub svc)
  /\ exists c t, svc_description svc = c :: t /\ isspace c = false.
Proof.
  intros H Hin. simpl in H.
  destruct (fetch_loop_In _ _ _ _ H Hin) as [[] | (line & _ & E)].
  pose proof (split_parts_start 4 line) as Hstart. rewrite E in Hstart.
  pose proof (split_all_words line) as Hwords.
  destruct (split_against_all 4 line) as [Hfew Hmany].
  assert (Hlen : (4 < length (split_all line))%nat).
  { destruct (Nat.le_gt_cases (length (split_all line)) 4) as [Hle | Hgt];
      [| exact Hgt].
    rewrite (Hfew Hle) in E. rewrite E in Hle. simpl in Hle. lia. }
  destruct (Hmany Hlen) as (d & pre & Hs & _).
  rewrite E in Hs.
  destruct (split_all line) as [|f0 [|f1 [|f2 [|f3 [|f4 fs]]]]];
    try (simpl in Hlen; lia).
  simpl in Hs. injection Hs as -> -> -> -> _.
  inversion Hwords as [|? ? W0 Hw1]; subst.
  inversion Hw1 as [|? ? W1 Hw2]; subst.
  inversion Hw2 as [|? ? W2 Hw3]; subst.
  inversion Hw3 as [|? ? W3 _]; subst.
  repeat (split; [assumption |]).
  inversion Hstart as [|? ? _ H1]; subst.
  inversion H1 as [|? ? _ H2]; subst.
  inversion H2 as [|? ? _ H3]; subst.
  inversion H3 as [|? ? _ H4]; subst.
  now inversion H4.
Qed.

Lemma linebreak_is_space (c : ascii) :
  is_linebreak c = true -> isspace c = true.
Proof. destruct c as [[] [] [] [] [] [] [] []]; simpl; auto. Qed.

Lemma word_no_linebreak (w : pystr) :
  forallb (fun c => negb (isspace c)) w = true ->
  forallb (fun c => negb (is_linebreak c)) w = true.
Proof.
  induction w as [|c w IH]; simpl; [reflexivity |].
  rewrite !andb_true_iff. intros [Hc Hw]. split; [| now apply IH].
  destruct (is_linebreak c) eqn:E; [| reflexivity].
  now rewrite (linebreak_is_space c E) in Hc.
Qed.

Lemma forallb_app_true {A} (f : A -> bool) (l1 l2 : list A) :
  forallb f l1 = true -> forallb f l2 = true -> forallb f (l1 ++ l2) = true.
Proof. intros H1 H2. rewrite forallb_app. now rewrite H1, H2. Qed.

(** A line without line boundary, ended by a line feed, is the first of
    the lines. *)
Lemma splitlines_from_line (cur s rest : pystr) :
  forallb (fun c => negb (is_linebreak c)) s = true ->
  splitlines_from false cur (s ++ newline :: rest)
  = (rev cur ++ s) :: splitlines_from false [] rest.
Proof.
  revert cur. induction s as [|c s IH]; intros cur H.
  - simpl. now rewrite app_nil_r.
  - simpl in H. apply andb_true_iff in H. destruct H as [Hc Hs].
    cbn [app splitlines_from andb].
    destruct (is_linebreak c); [discriminate |].
    rewrite (IH (c :: cur) Hs). simpl. now rewrite <- app_assoc.
Qed.

Lemma unit_line_no_linebreak (s : service) :
  listable s -> forallb (fun c => negb (is_linebreak c)) (unit_line s) = true.
Proof.
  intros ([_ Hu] & [_ Hl] & [_ Ha] & [_ Hs] & _ & Hd). unfold unit_line.
  repeat (apply forallb_app_true;
          [first [reflexivity | now apply word_no_linebreak] |]).
  exact Hd.
Qed.

Lemma splitlines_listing (l : list service) :
  Forall listable l -> splitlines (listing_of l) = map unit_line l.
Proof.
  unfold splitlines, listing_of. induction 1 as [|s l Hs _ IH]; [reflexivity |].
  cbn [map concat]. rewrite <- app_assoc. cbn [app].
  rewrite splitlines_from_line by now apply unit_line_no_linebreak.
  simpl. now rewrite IH.
Qed.

Lemma word_break_at_space (w : pystr) (c : ascii) (r : pystr) :
  forallb (fun c => negb (isspace c)) w = true -> isspace c = true ->
  word_break (w ++ c :: r) = (w, c :: r).
Proof.
  intros Hw Hc. induction w as [|a w IH]; simpl.
  - now rewrite Hc.
  - simpl in Hw. apply andb_true_iff in Hw. destruct Hw as [Ha Hw].
    destruct (isspace a); [discriminate |]. now rewrite (IH Hw).
Qed.

(** A word followed by whitespace is the first part of a split. *)
Lemma split_word_first (k : nat) (w : pystr) (c : ascii) (r : pystr) :
  is_word w -> isspace c = true ->
  split (S k) (w ++ c :: r) = w :: split k r.
Proof.
  intros [Hne Hw] Hc. destruct w as [|a w]; [congruence |].
  pose proof Hw as Hw'. simpl in Hw'. apply andb_true_iff in Hw'.
  destruct Hw' as [Ha _]. apply negb_true_iff in Ha.
  assert (E : lstrip ((a :: w) ++ c :: r) = a :: (w ++ c :: r))
    by (simpl; now rewrite Ha).
  rewrite (split_step k _ a (w ++ c :: r) (a :: w) (c :: r) E).
  - f_equal. destruct k; simpl; now rewrite Hc.
  - apply (word_break_at_space (a :: w) c r Hw Hc).
Qed.

Lemma split_unit_line (s : service) :
  listable s ->
  split 4 (unit_line s)
  = [svc_unit s; svc_load s; svc_active s; svc_sub s; svc_description s].
Proof.
  intros (Hu & Hl & Ha & Hs & (c & t & Hd & Hc) & _). unfold unit_line.
  change (str " ") with [" "%char]. cbn [app].
  rewrite !split_word_first by (assumption || reflexivity).
  rewrite Hd. simpl. now rewrite Hc.
Qed.

Lemma fetch_loop_listing (l acc : list service) :
  Forall listable l -> fetch_loop (map unit_line l) acc = Ok (acc ++ l).
Proof.
  intros H. revert acc. induction H as [|s l Hs _ IH]; intros acc.
  - simpl. now rewrite app_nil_r.
  - cbn [map fetch_loop]. rewrite (split_unit_line s Hs). simpl.
    rewrite IH. rewrite <- app_assoc. now destruct s.
Qed.

(** X15. Parsing gives back what a plain listing holds: for units whose
    four fields are words and whose description starts with no
    whitespace and has no line boundary, the listing with one line per
    unit and one space between the columns parses to those units, in
    order, whatever the exit status. *)
Theorem fetch_services_of_listing (rc : Z) (err : pystr) (l : list service) :
  Forall listable l ->
  fetch_services (Completed rc (listing_of l) err) = Ok l.
Proof.
  intros H. simpl. rewrite (splitlines_listing l H).
  now rewrite (fetch_loop_listing l [] H).
Qed.

End ListingMore.
(** ** Rendering *)

Section Rendering.

Lemma enumerate_from_nth {A} (l : list A) (i : Z) (k : nat) :
  nth_error (enumerate_from i l) k
  = option_map (fun x => (i + Z.of_nat k, x)) (nth_error l k).
Proof.
  revert i k. induction l as [|a l IH]; intros i k.
  - now destruct k.
  - destruct k as [|k]; simpl.
    + now rewrite Z.add_0_r.
    + rewrite IH. destruct (nth_error l k); simpl; [| reflexivity].
      do 2 f_equal. lia.
Qed.

Lemma enumerate_from_length {A} (l : list A) (i : Z) :
  length (enumerate_from i l) = length l.
Proof. revert i. induction l; intros i; simpl; [| rewrite IHl]; reflexivity. Qed.

(** A slice whose bounds lie in the list, in order. *)
Lemma py_slice_inside {A} (l : list A) (a b : Z) :
  0 <= a -> 0 <= b ->
  py_slice l a b
  = take (Z.to_nat (Z.min b (len l) - Z.min a (len l)))
         (drop (Z.to_nat (Z.min a (len l))) l).
Proof.
  intros Ha Hb. unfold py_slice.
  destruct (Z.ltb_spec a 0); [lia |]. destruct (Z.ltb_spec b 0); [lia |].
  reflexivity.
Qed.

(** The rows of [draw_main], one by one. *)
Lemma draw_main_rows_nth (h w : Z) (l : list service) (c o : Z)
    (m : list pystr) (k : nat) :
  nth_error (draw_main_rows h w l c o m) k
  = option_map (fun svc => Row (1 + Z.of_nat k) (row_line m svc) (w - 1)
                             (o + Z.of_nat k =? c))
      (nth_error (py_slice l o (o + (h - 3 - 1 + 1))) k).
Proof.
  unfold draw_main_rows. rewrite nth_error_map, enumerate_from_nth.
  now destruct (nth_error _ k).
Qed.

(** X16. On a terminal of at least 4 rows, for a frame that satisfies the
    viewport invariant over a view that is not empty, [draw_main] draws
    the row of the selected unit: it is the only row in reverse video, on
    screen line [1 + cursor - offset]; and every row of the list lies on
    the lines 1 to [h - 3], above the footer and the status line. *)
Theorem selected_row_is_drawn (h w : Z) (st : state) :
  4 <= h -> viewport_ok (max_lines h) st -> services st <> [] ->
  exists svc,
    py_index (services st) (cursor st) = Ok svc
    /\ nth_error (rows_of h w st) (Z.to_nat (cursor st - offset st))
       = Some (Row (1 + (cursor st - offset st)) (row_line (marks st) svc)
                 (w - 1) true)
    /\ (forall k r, nth_error (rows_of h w st) k = Some r ->
                    row_reverse r = true ->
                    k = Z.to_nat (cursor st - offset st))
    /\ Forall (fun r => 1 <= row_y r <= h - 3) (rows_of h w st).
Proof.
  intros Hh [Hv _] Hne. destruct (Hv Hne) as (H0 & H1 & H2 & H3).
  assert (Hm : max_lines h = h - 3) by (unfold max_lines; lia).
  rewrite Hm in H2.
  destruct (py_index_in_range (services st) (cursor st)) as (svc & Hs & Hn);
    [lia |].
  exists svc. split; [exact Hs |].
  assert (Hslice : forall k,
            nth_error (py_slice (services st) (offset st)
                         (offset st + (h - 3 - 1 + 1))) k
            = if (Z.of_nat k <? Z.min (h - 3) (len (services st) - offset st))
              then nth_error (services st) (Z.to_nat (offset st) + k)
              else None).
  { intros k. rewrite py_slice_inside by lia.
    rewrite nth_error_firstn, nth_error_skipn.
    replace (Z.min (offset st) (len (services st))) with (offset st) by lia.
    destruct (Nat.ltb_spec k
                (Z.to_nat (Z.min (offset st + (h - 3 - 1 + 1))
                             (len (services st)) - offset st)));
      destruct (Z.ltb_spec (Z.of_nat k)
                  (Z.min (h - 3) (len (services st) - offset st)));
      try reflexivity; lia. }
  unfold rows_of. split; [| split].
  - rewrite draw_main_rows_nth, Hslice.
    destruct (Z.ltb_spec (Z.of_nat (Z.to_nat (cursor st - offset st)))
                (Z.min (h - 3) (len (services st) - offset st))); [| lia].
    replace (Z.to_nat (offset st) + Z.to_nat (cursor st - offset st))%nat
      with (Z.to_nat (cursor st)) by lia.
    rewrite Hn. simpl. do 2 f_equal; [lia |]. apply Z.eqb_eq. lia.
  - intros k r Hk Hr. rewrite draw_main_rows_nth in Hk.
    match type of Hk with
    | context [nth_error ?l k] => destruct (nth_error l k)
    end; [| discriminate].
    simpl in Hk. injection Hk as <-. simpl in Hr. apply Z.eqb_eq in Hr. lia.
  - apply Forall_forall. intros r Hr. apply list_elem_of_In in Hr.
    apply In_nth_error in Hr. destruct Hr as [k Hk].
    rewrite draw_main_rows_nth, Hslice in Hk.
    destruct (Z.ltb_spec (Z.of_nat k)
                (Z.min (h - 3) (len (services st) - offset st)));
      [| discriminate].
    match type of Hk with
    | context [nth_error ?l ?i] => destruct (nth_error l i)
    end; [| discriminate].
    simpl in Hk. injection Hk as <-. simpl. lia.
Qed.

Lemma ljust_length (n : nat) (s : pystr) :
  length (ljust n s) = Nat.max n (length s).
Proof. unfold ljust. rewrite length_app, repeat_length. lia. Qed.

(** X17. The layout of a row.  Every field is written in full, never
    cut: the row is the mark, then the identifier, the load state, the
    active state and the sub state, each padded with spaces up to its
    column width of 32, 8, 10 and 12 when it is shorter, with one space
    between, then the description.  So the row has 6 characters more than
    the fields or their widths, whichever are longer, and the description;
    the description starts at column 68 when the four fields fit their
    columns, and further right when one of them is longer. *)
Theorem row_columns_aligned (marks : list pystr) (svc : service) :
  (drop (length (row_line marks svc) - length (svc_description svc))%nat
        (row_line marks svc)
   = svc_description svc)
  /\ (68 + length (svc_description svc) <= length (row_line marks svc))%nat
  /\ ((length (svc_unit svc) <= 32)%nat -> (length (svc_load svc) <= 8)%nat ->
      (length (svc_active svc) <= 10)%nat -> (length (svc_sub svc) <= 12)%nat ->
      drop 68 (row_line marks svc) = svc_description svc)
  /\ row_line marks svc
     = (if mem (svc_unit svc) marks then str "*" else str " ") ++ str " "
       ++ svc_unit svc ++ repeat " "%char (32 - length (svc_unit svc))
       ++ str " "
       ++ svc_load svc ++ repeat " "%char (8 - length (svc_load svc))
       ++ str " "
       ++ svc_active svc ++ repeat " "%char (10 - length (svc_active svc))
       ++ str " "
       ++ svc_sub svc ++ repeat " "%char (12 - length (svc_sub svc))
       ++ str " " ++ svc_description svc
  /\ length (row_line marks svc)
     = (6 + Nat.max 32 (length (svc_unit svc))
        + Nat.max 8 (length (svc_load svc))
        + Nat.max 10 (length (svc_active svc))
        + Nat.max 12 (length (svc_sub svc))
        + length (svc_description svc))%nat.
Proof.
  assert (Hlen : length (row_line marks svc)
                 = (6 + Nat.max 32 (length (svc_unit svc))
                    + Nat.max 8 (length (svc_load svc))
                    + Nat.max 10 (length (svc_active svc))
                    + Nat.max 12 (length (svc_sub svc))
                    + length (svc_description svc))%nat).
  { unfold row_line. rewrite !length_app, !ljust_length.
    destruct (mem _ _); simpl; lia. }
  assert (Hdrop : forall n,
            n = (length (row_line marks svc)
                 - length (svc_description svc))%nat ->
            drop n (row_line marks svc) = svc_description svc).
  { intros n ->. rewrite Hlen. unfold row_line.
    rewrite !app_assoc.
    match goal with
    | |- drop ?n (?p ++ ?d) = _ =>
        replace n with (length p); [apply drop_app_length |]
    end.
    rewrite !length_app, !ljust_length. destruct (mem _ _); simpl; lia. }
  split; [now apply Hdrop |]. split; [lia |].
  split; [intros H1 H2 H3 H4; apply Hdrop; rewrite Hlen; lia |].
  split; [| exact Hlen].
  unfold row_line, ljust. now rewrite <- !app_assoc.
Qed.

End Rendering.
(** ** Dialogs *)

Section Dialogs.

Lemma details_loop_take (wh ww : Z) (lines : list pystr) (i : Z) :
  details_loop wh ww (enumerate_from i lines)
  = map (fun '(j, l) => (1 + j, py_slice_to l (ww - 2)))
        (enumerate_from i (take (Z.to_nat (wh - 2 - i)) lines)).
Proof.
  revert i. induction lines as [|a lines IH]; intros i.
  - now rewrite take_nil.
  - cbn [enumerate_from details_loop].
    destruct (Z.geb_spec (i + 1) (wh - 1)).
    + now replace (Z.to_nat (wh - 2 - i)) with 0%nat by lia.
    + replace (Z.to_nat (wh - 2 - i)) with (S (Z.to_nat (wh - 2 - (i + 1))))
        by lia.
      cbn [take enumerate_from map]. f_equal. apply IH.
Qed.

Lemma py_slice_from_last {A} (l : list A) (n : nat) :
  py_slice_from l (- Z.of_nat (S n)) = lastn (S n) l.
Proof.
  unfold py_slice_from, py_slice, lastn, len.
  destruct (Z.ltb_spec (- Z.of_nat (S n)) 0); [| lia].
  destruct (Z.ltb_spec (Z.of_nat (length l)) 0); [lia |].
  replace (Z.to_nat (Z.max 0 (- Z.of_nat (S n) + Z.of_nat (length l))))
    with (length l - S n)%nat by lia.
  apply take_ge. rewrite length_drop. lia.
Qed.

Lemma lastn_length {A} (n : nat) (l : list A) : (length (lastn n l) <= n)%nat.
Proof. unfold lastn. rewrite length_drop. lia. Qed.

(** X18. The details window never shows more than three lines of the
    journal, though it asks for ten and announces ten, and it makes at
    most 13 writes.  On a terminal of at least 18 rows and 7 columns it
    writes its nine lines of head, then the last three lines that
    [journalctl] printed, on the rows 10, 11 and 12, and then the closing
    line on row 12, over the third of them.  On a terminal of 7 to 15
    rows it writes no line of the journal at all. *)
Theorem details_show_three_log_lines (h w : Z) (svc : service) :
  let trim := fun '(j, l) => (1 + j, py_slice_to l (Z.min 100 (w - 4) - 2)) in
  let closing :=
    (Z.min 14 (h - 4) - 2,
     py_slice_to (str "Press any key to close...") (Z.min 100 (w - 4) - 2)) in
  (forall journal,
     (length (show_details_popup h w svc journal) <= 13)%nat)
  /\ (forall rc out err,
        18 <= h -> 7 <= w ->
        show_details_popup h w svc (Completed rc out err)
        = map trim (enumerate_from 0
                      (details_head svc ++ lastn 3 (splitlines out)))
          ++ [closing]
        /\ fst closing = 12
        /\ forall k l,
             nth_error (lastn 3 (splitlines out)) k = Some l ->
             nth_error (show_details_popup h w svc (Completed rc out err))
                       (9 + k)
             = Some (10 + Z.of_nat k,
                     py_slice_to l (Z.min 100 (w - 4) - 2)))
  /\ (forall journal,
        7 <= h <= 15 -> 7 <= w ->
        show_details_popup h w svc journal
        = map trim (enumerate_from 0
                      (take (Z.to_nat (Z.min 14 (h - 4) - 2))
                         (details_head svc)))
          ++ [closing]).
Proof.
  intros trim closing. split; [| split].
  - intros journal. unfold show_details_popup. rewrite details_loop_take.
    rewrite length_app, length_map, enumerate_from_length, length_take.
    simpl.
    assert (Hn : (Z.to_nat (Z.min 14 (h - 4) - 2 - 0) <= 12)%nat) by lia.
    revert Hn. generalize (Z.to_nat (Z.min 14 (h - 4) - 2 - 0)).
    intros n Hn. pose proof (Nat.le_min_l n
      (length (details_head svc ++
               match journal with
               | Completed _ out _ =>
                   py_slice_from (splitlines out)
                     (- (Z.min 14 (h - 4) - len (details_head svc) - 2))
               | Launch_failed msg => [msg]
               end))). lia.
  - intros rc out err Hh _.
    assert (Hw : Z.min 14 (h - 4) = 14) by lia.
    assert (Heq :
      show_details_popup h w svc (Completed rc out err)
      = map trim (enumerate_from 0
                    (details_head svc ++ lastn 3 (splitlines out)))
        ++ [closing]).
    { unfold show_details_popup, closing, trim. rewrite details_loop_take.
      rewrite Hw.
      change (- (14 - len (details_head svc) - 2)) with (- Z.of_nat 3).
      rewrite py_slice_from_last. rewrite take_ge; [reflexivity |].
      rewrite length_app. pose proof (lastn_length 3 (splitlines out)).
      simpl. lia. }
    rewrite Heq. split; [reflexivity |].
    split; [unfold closing; simpl; lia |].
    intros k l Hk.
    assert (Hlt : (k < length (lastn 3 (splitlines out)))%nat)
      by (apply nth_error_Some; congruence).
    rewrite nth_error_app1.
    + rewrite nth_error_map, enumerate_from_nth.
      rewrite nth_error_app2 by (simpl; lia).
      replace (9 + k - length (details_head svc))%nat with k by (simpl; lia).
      rewrite Hk. simpl. do 2 f_equal. lia.
    + rewrite length_map, enumerate_from_length, length_app. simpl. lia.
  - intros journal Hh _. unfold show_details_popup, closing, trim.
    rewrite details_loop_take.
    rewrite take_app_le; [now rewrite Z.sub_0_r |]. simpl. lia.
Qed.

(** X19. The confirmation dialog ends on the first of the keys y, Y, n, N
    and on no other: the keys typed before it are swallowed, the answer
    is yes for y and Y, and the keys typed after it are left to the main
    loop; without such a key it goes on waiting. *)
Theorem confirm_ignores_other_keys (pre : list Z) (k : Z) (post : list Z) :
  Forall (fun x => answers x = false) pre ->
  confirm_prompt pre = None
  /\ (answers k = true ->
      confirm_prompt (pre ++ k :: post)
      = Some ((k =? 121) || (k =? 89), post)).
Proof.
  induction 1 as [|x pre Hx _ [IH1 IH2]].
  - split; [reflexivity |]. unfold answers. intros Hk. simpl.
    destruct (k =? 121), (k =? 89); simpl in *; try reflexivity.
    now rewrite Hk.
  - unfold answers in Hx. cbn [confirm_prompt app].
    destruct (x =? 121), (x =? 89), (x =? 110), (x =? 78);
      try discriminate. simpl. now split.
Qed.

Lemma rstrip_prefix (s : pystr) : exists sp, s = rstrip s ++ sp.
Proof.
  unfold rstrip. destruct (lstrip_suffix (rev s)) as [pre E].
  exists (rev pre). rewrite <- rev_app_distr, <- E. now rewrite rev_involutive.
Qed.

Lemma strip_stripped (s : pystr) : stripped (strip s).
Proof.
  unfold strip. split.
  - intros c t E. destruct (rstrip_prefix (lstrip s)) as [sp Hsp].
    rewrite E in Hsp. simpl in Hsp. now apply lstrip_head in Hsp.
  - intros c t E. unfold rstrip in E.
    apply (f_equal (@rev ascii)) in E.
    rewrite rev_involutive, rev_app_distr in E. simpl in E.
    now apply lstrip_head in E.
Qed.

Lemma lstrip_all_space (s : pystr) : forallb isspace s = true -> lstrip s = [].
Proof.
  induction s as [|c s IH]; simpl; [reflexivity |].
  destruct (isspace c); [exact IH | discriminate].
Qed.

Lemma strip_all_space (s : pystr) : forallb isspace s = true -> strip s = [].
Proof. intros H. unfold strip. now rewrite (lstrip_all_space s H). Qed.

(** X20. A search stores its query stripped: after [/] with the text of
    [prompt_input] the active query is unset or it is a string that is
    not empty and has no whitespace at either end; a text of whitespace
    only, or an exception in the prompt, unsets it. *)
Theorem search_query_is_stripped (h : Z) (typed : result pystr) (st : state) :
  exists st',
    handle h (Key_slash (prompt_input typed)) st = ret (Continue st')
    /\ (filter_q st' = None
        \/ exists v, filter_q st' = Some v /\ v <> [] /\ stripped v)
    /\ (forall s, typed = Ok s -> forallb isspace s = true ->
                  filter_q st' = None)
    /\ (forall e, typed = Raise e -> filter_q st' = None).
Proof.
  eexists. split; [reflexivity |]. destruct typed as [s | e]; simpl.
  - pose proof (strip_stripped s) as Hs. split; [| split].
    + destruct (strip s) as [|c v] eqn:E; simpl; [now left |].
      right. exists (c :: v).
      split; [reflexivity | split; [discriminate | exact Hs]].
    + intros s' [= <-] Hsp. now rewrite (strip_all_space s Hsp).
    + intros e'. discriminate.
  - split; [now left |]. split; [discriminate | reflexivity].
Qed.

End Dialogs.
(** ** Instances of the further theorems *)

Section MoreWitnesses.

Lemma marks_written_through_witness :
  Forall (fun e => writes (snd e)) marking_session
  /\ exists c,
       result_of (main_loop Written Missing listing marking_session) = Ok c
       /\ marks (state_of c) = [str "nginx.service"]
       /\ load_marks (marks_file (state_of c)) = marks (state_of c).
Proof.
  split; [repeat constructor |].
  eexists. split; [reflexivity |]. split; [reflexivity |].
  apply (marks_written_through Written Missing listing marking_session);
    [repeat constructor | reflexivity].
Defined.

Lemma marks_stay_duplicate_free_witness :
  List.NoDup (load_marks (Json_list [str "sshd.service"]))
  /\ exists c,
       result_of (main_loop Written (Json_list [str "sshd.service"]) listing
                    marking_session) = Ok c
       /\ marks (state_of c) = [str "sshd.service"; str "nginx.service"]
       /\ List.NoDup (marks (state_of c)).
Proof.
  split; [apply nodup_one |].
  eexists. split; [reflexivity |]. split; [reflexivity |].
  apply (marks_stay_duplicate_free Written (Json_list [str "sshd.service"])
           listing marking_session); [apply nodup_one | reflexivity].
Defined.

Lemma browsing_viewport_ok : viewport_ok (max_lines 24) browsing.
Proof.
  split; [intros _ | intros H; discriminate H].
  repeat split; first [apply Z.leb_le | apply Z.ltb_lt]; reflexivity.
Defined.

Lemma scroll_is_minimal_witness :
  viewport_ok (max_lines 24) browsing
  /\ 0 <= 1 < len (services browsing)
  /\ cursor (frame 24 (set_cursor 1 browsing)) = 1
  /\ offset (frame 24 (set_cursor 1 browsing)) = offset browsing.
Proof.
  split; [apply browsing_viewport_ok |].
  assert (Hc : 0 <= 1 < len (services browsing))
    by (split; [apply Z.leb_le | apply Z.ltb_lt]; reflexivity).
  split; [exact Hc |].
  destruct (scroll_is_minimal 24 browsing 1 browsing_viewport_ok Hc)
    as (H1 & _ & H3).
  split; [exact H1 |]. apply H3.
  split; [apply Z.leb_le | apply Z.ltb_lt]; reflexivity.
Defined.

Lemma refresh_keeps_cursor_index_witness :
  0 <= cursor (set_cursor 1 browsing)
  /\ exists st',
       result_of (handle 24 (Key_r bus_down) (set_cursor 1 browsing))
       = Ok (Continue st')
       /\ cursor st' = 1 /\ services st' = [] /\ cursor (frame 24 st') = 0.
Proof.
  split; [simpl; lia |].
  destruct (refresh_keeps_cursor_index 24 24 (set_cursor 1 browsing) 1 []
              (str "Failed to connect to bus: No such file or directory"))
    as (st' & E & H1 & _ & _ & H4); [simpl; lia |].
  exists st'. split; [exact E |].
  vm_compute in E. injection E as <-. repeat split.
Defined.

Lemma match_keys_step_witness :
  view_fresh both_match
  /\ filter_q both_match = Some ("s"%char :: [])
  /\ 0 <= cursor both_match < len (services both_match)
  /\ handle 24 Key_n both_match = ret (Continue (set_cursor 1 both_match))
  /\ handle 24 Key_N both_match
     = ret (Continue (set_status (str "no previous match") both_match)).
Proof.
  assert (H1 : view_fresh both_match) by (split; [reflexivity | discriminate]).
  assert (H3 : 0 <= cursor both_match < len (services both_match))
    by (split; [apply Z.leb_le | apply Z.ltb_lt]; reflexivity).
  split; [exact H1 |]. split; [reflexivity |]. split; [exact H3 |].
  exact (match_keys_step_one_row 24 both_match "s"%char [] H1 eq_refl H3).
Defined.

Lemma longer_query_narrows_witness :
  substring_of (lower (str "S")) (lower (str "ssh"))
  /\ sublist [sshd] [nginx; sshd]
  /\ apply_filter [nginx; sshd] (Some (str "ssh")) = [sshd]
  /\ apply_filter [nginx; sshd] (Some (str "S")) = [nginx; sshd].
Proof.
  assert (H : substring_of (lower (str "S")) (lower (str "ssh")))
    by (exists [], (str "sh"); reflexivity).
  split; [exact H |]. split; [| split; reflexivity].
  exact (longer_query_narrows [nginx; sshd] (str "S") (str "ssh") H).
Defined.

Lemma query_case_witness :
  lower (str "SSH") = lower (str "ssh")
  /\ apply_filter [nginx; sshd] (Some (str "SSH")) = [sshd].
Proof.
  split; [reflexivity |].
  rewrite (proj1 (query_case_is_ignored [nginx; sshd] (str "SSH") (str "ssh")
                    eq_refl)).
  reflexivity.
Defined.

Lemma fetched_records_witness :
  fetch_services listing = Ok [nginx; sshd] /\ In sshd [nginx; sshd]
  /\ is_word (svc_unit sshd)
  /\ exists c t, svc_description sshd = c :: t /\ isspace c = false.
Proof.
  assert (Hin : In sshd [nginx; sshd]) by (right; left; reflexivity).
  split; [reflexivity |]. split; [exact Hin |].
  destruct (fetched_records_well_formed 0 two_units_out [] [nginx; sshd] sshd
              eq_refl Hin) as (Hu & _ & _ & _ & Hd).
  split; [exact Hu | exact Hd].
Defined.

Lemma nginx_listable : listable nginx.
Proof.
  repeat split; try discriminate; try reflexivity.
  eexists _, _. split; reflexivity.
Defined.

Lemma sshd_listable : listable sshd.
Proof.
  repeat split; try discriminate; try reflexivity.
  eexists _, _. split; reflexivity.
Defined.

Lemma fetch_services_of_listing_witness :
  Forall listable [nginx; sshd]
  /\ fetch_services (Completed 0 (listing_of [nginx; sshd]) []) = Ok [nginx; sshd].
Proof.
  assert (H : Forall listable [nginx; sshd])
    by (constructor; [apply nginx_listable |];
        constructor; [apply sshd_listable | constructor]).
  split; [exact H |].
  exact (fetch_services_of_listing 0 [] [nginx; sshd] H).
Defined.

Lemma selected_row_witness :
  4 <= 24 /\ viewport_ok (max_lines 24) browsing /\ services browsing <> []
  /\ nth_error (rows_of 24 80 browsing) 0
     = Some (Row 1 (row_line [] nginx) 79 true)
  /\ length (rows_of 24 80 browsing) = 2%nat.
Proof.
  split; [lia |]. split; [apply browsing_viewport_ok |].
  split; [discriminate |].
  destruct (selected_row_is_drawn 24 80 browsing ltac:(lia)
              browsing_viewport_ok ltac:(discriminate))
    as (svc & Hs & Hrow & _).
  vm_compute in Hs. injection Hs as <-. split; [exact Hrow | reflexivity].
Defined.

Lemma confirm_witness :
  Forall (fun x => answers x = false) [13; 27; 113]
  /\ confirm_prompt [13; 27; 113] = None
  /\ confirm_prompt ([13; 27; 113] ++ 121 :: [106]) = Some (true, [106]).
Proof.
  assert (H : Forall (fun x => answers x = false) [13; 27; 113])
    by (repeat constructor).
  split; [exact H |].
  destruct (confirm_ignores_other_keys [13; 27; 113] 121 [106] H) as [H1 H2].
  split; [exact H1 | exact (H2 eq_refl)].
Defined.

End MoreWitnesses.
